(** * Student activity tracker: a shallow embedding of
      core/static/core/student_activity.js

    The module is a closure over a handful of mutable variables, driven by
    the host page (setContext / log / flush), by two browser timers and by
    the settlement of its own network requests.  It is modelled as a state
    and exception monad over a [World]: the module's variables, plus the
    part of the browser the module talks to (timer tables, requests that are
    awaited, bodies passed to sendBeacon, number of clock reads so far).
    The listeners of lines 178-214 take what the browser hands them (the
    selection, the clipboard data, [document.hidden]) as their argument.

    Conventions.
    - JavaScript numbers are restricted to integers ([Z]): every number the
      module computes with is a time value in milliseconds, a counter, a
      length or a rounded quotient of such.
    - [Date.now()] is an oracle [clock : nat -> Z]; the n-th read of the
      clock, counted from module load, returns [clock n].
    - [JSON.stringify], [Blob], [fetch] and [navigator.sendBeacon] are the
      platform's; they are fields of [Env] and every theorem quantifies over
      them. *)

From Stdlib Require Import ZArith List String Bool Lia Arith.
Import ListNotations.
Local Open Scope string_scope.
Local Open Scope list_scope.
Local Open Scope Z_scope.
Set Warnings "-register-all".

(* ================================================================== *)
(** ** JavaScript values *)
(* ================================================================== *)

Module Js.

(** Primitive values.  Task and session identifiers are primitives, so that
    [!==] on them is comparison by value. *)
Inductive prim : Type :=
| PUndefined
| PNull
| PBool (b : bool)
| PNum (n : Z)
| PStr (s : string).

(** Values: primitives, object literals (own properties in creation order)
    and arrays. *)
Inductive value : Type :=
| VPrim (p : prim)
| VObj (fields : list (string * value))
| VArr (items : list value).

Definition VStr (s : string) : value := VPrim (PStr s).
Definition VNum (n : Z) : value := VPrim (PNum n).
Definition undefined : value := VPrim PUndefined.

(** ToBoolean. *)
Definition truthy_prim (p : prim) : bool :=
  match p with
  | PUndefined | PNull => false
  | PBool b => b
  | PNum n => negb (n =? 0)
  | PStr s => negb (String.eqb s "")
  end.

Definition truthy (v : value) : bool :=
  match v with
  | VPrim p => truthy_prim p
  | VObj _ | VArr _ => true
  end.

(** [a === b] on primitives. *)
Definition strict_eq (a b : prim) : bool :=
  match a, b with
  | PUndefined, PUndefined => true
  | PNull, PNull => true
  | PBool x, PBool y => Bool.eqb x y
  | PNum x, PNum y => x =? y
  | PStr x, PStr y => String.eqb x y
  | _, _ => false
  end.

(** [v === "s"] for a string literal [s]. *)
Definition is_str (s : string) (v : value) : bool :=
  match v with
  | VPrim (PStr t) => String.eqb t s
  | _ => false
  end.

(** [typeof p !== "undefined"]. *)
Definition defined (p : prim) : bool :=
  match p with PUndefined => false | _ => true end.

Fixpoint lookup (k : string) (fs : list (string * value)) : value :=
  match fs with
  | [] => undefined
  | (k', v) :: rest => if String.eqb k' k then v else lookup k rest
  end.

(** Property read [o.k]. *)
Definition prop (k : string) (o : value) : value :=
  match o with
  | VObj fs => lookup k fs
  | _ => undefined
  end.

(** Own property names of an object, in creation order. *)
Definition keys (o : value) : list string :=
  match o with
  | VObj fs => map fst fs
  | _ => []
  end.

(** [Math.round(d / 1000)] for an integer [d]: nearest integer, ties
    towards plus infinity. *)
Definition round_div_1000 (d : Z) : Z := (d + 500) / 1000.

Inductive exn : Type :=
| TypeError
| NetworkError.

End Js.
Import Js.

(* ================================================================== *)
(** ** Config (lines 13-18) *)
(* ================================================================== *)

Definition FLUSH_INTERVAL_MS : Z := 5000.
Definition MAX_BATCH_SIZE : nat := 30.
Definition HEARTBEAT_SEC : Z := 10.
Definition MAX_PAYLOAD_BYTES : Z := 30000.
Definition BACKOFF_MS : Z := 9000.
Definition MINUTE_MS : Z := 60000.

(* ================================================================== *)
(** ** State (lines 20-38) and the browser around it *)
(* ================================================================== *)

Record Counters : Type := mkCounters {
  copy : Z;
  paste : Z;
  cut : Z;
  tab_hidden : Z;
  blur : Z
}.

Definition zero_counters : Counters := mkCounters 0 0 0 0 0.

(** The module's variables.  A timer variable holds [None] for [null] and
    [Some id] for an identifier returned by setTimeout / setInterval; such
    identifiers are positive integers, so [Some id] is truthy. *)
Record State : Type := mkState {
  currentTaskId : prim;
  currentSessionId : prim;
  lastTaskOpenedAt : Z;
  queue : list value;
  lastFlushAt : Z;
  flushTimer : option positive;
  heartbeatTimer : option positive;
  minuteWindowStart : Z;
  counters : Counters
}.

(** A request whose promise a suspended [flush] is awaiting: the body that
    was sent and the [batch] the suspended call holds. *)
Record Request : Type := mkRequest {
  req_body : string;
  req_batch : list value
}.

(** The browser: [timeouts] are the pending setTimeout(flush, delay)
    entries, [intervals] the active setInterval(heartbeat, delay) entries. *)
Record Browser : Type := mkBrowser {
  reads : nat;
  next_timer : positive;
  timeouts : list (positive * Z);
  intervals : list (positive * Z);
  inflight : list Request;
  beacons : list string
}.

Record World : Type := mkWorld {
  st : State;
  br : Browser
}.

Definition on_st (f : State -> State) (w : World) : World :=
  mkWorld (f (st w)) (br w).
Definition on_br (f : Browser -> Browser) (w : World) : World :=
  mkWorld (st w) (f (br w)).

Definition set_currentTaskId (x : prim) (s : State) : State :=
  mkState x (currentSessionId s) (lastTaskOpenedAt s) (queue s)
          (lastFlushAt s) (flushTimer s) (heartbeatTimer s)
          (minuteWindowStart s) (counters s).
Definition set_currentSessionId (x : prim) (s : State) : State :=
  mkState (currentTaskId s) x (lastTaskOpenedAt s) (queue s)
          (lastFlushAt s) (flushTimer s) (heartbeatTimer s)
          (minuteWindowStart s) (counters s).
Definition set_lastTaskOpenedAt (x : Z) (s : State) : State :=
  mkState (currentTaskId s) (currentSessionId s) x (queue s)
          (lastFlushAt s) (flushTimer s) (heartbeatTimer s)
          (minuteWindowStart s) (counters s).
Definition set_queue (x : list value) (s : State) : State :=
  mkState (currentTaskId s) (currentSessionId s) (lastTaskOpenedAt s) x
          (lastFlushAt s) (flushTimer s) (heartbeatTimer s)
          (minuteWindowStart s) (counters s).
Definition set_lastFlushAt (x : Z) (s : State) : State :=
  mkState (currentTaskId s) (currentSessionId s) (lastTaskOpenedAt s)
          (queue s) x (flushTimer s) (heartbeatTimer s)
          (minuteWindowStart s) (counters s).
Definition set_flushTimer (x : option positive) (s : State) : State :=
  mkState (currentTaskId s) (currentSessionId s) (lastTaskOpenedAt s)
          (queue s) (lastFlushAt s) x (heartbeatTimer s)
          (minuteWindowStart s) (counters s).
Definition set_heartbeatTimer (x : option positive) (s : State) : State :=
  mkState (currentTaskId s) (currentSessionId s) (lastTaskOpenedAt s)
          (queue s) (lastFlushAt s) (flushTimer s) x
          (minuteWindowStart s) (counters s).
Definition set_window (start : Z) (c : Counters) (s : State) : State :=
  mkState (currentTaskId s) (currentSessionId s) (lastTaskOpenedAt s)
          (queue s) (lastFlushAt s) (flushTimer s) (heartbeatTimer s)
          start c.
Definition set_counters (c : Counters) (s : State) : State :=
  set_window (minuteWindowStart s) c s.

Definition set_reads (x : nat) (b : Browser) : Browser :=
  mkBrowser x (next_timer b) (timeouts b) (intervals b) (inflight b)
            (beacons b).
Definition set_next_timer (x : positive) (b : Browser) : Browser :=
  mkBrowser (reads b) x (timeouts b) (intervals b) (inflight b) (beacons b).
Definition set_timeouts (x : list (positive * Z)) (b : Browser) : Browser :=
  mkBrowser (reads b) (next_timer b) x (intervals b) (inflight b)
            (beacons b).
Definition set_intervals (x : list (positive * Z)) (b : Browser) : Browser :=
  mkBrowser (reads b) (next_timer b) (timeouts b) x (inflight b) (beacons b).
Definition set_inflight (x : list Request) (b : Browser) : Browser :=
  mkBrowser (reads b) (next_timer b) (timeouts b) (intervals b) x
            (beacons b).
Definition set_beacons (x : list string) (b : Browser) : Browser :=
  mkBrowser (reads b) (next_timer b) (timeouts b) (intervals b)
            (inflight b) x.

(** The platform, as the module sees it. *)
Record Env : Type := mkEnv {
  (** [clock n] is what the n-th [Date.now()] / [new Date()] returns. *)
  clock : nat -> Z;
  (** [Date.prototype.toISOString]. *)
  toISOString : Z -> string;
  (** [location.pathname] and [navigator.userAgent]. *)
  pathname : string;
  userAgent : string;
  (** [JSON.stringify]; [None] when it throws (cycles, BigInt, a throwing
      toJSON). *)
  JSON_stringify : value -> option string;
  (** Size in bytes of a Blob holding one string. *)
  Blob_size : string -> Z;
  (** [navigator.sendBeacon]: [None] when the browser lacks it; otherwise
      the call on a body returns a boolean, or throws ([None]). *)
  navigator_sendBeacon : option (string -> option bool);
  (** Whether [fetch] throws at the call, rather than returning a promise. *)
  fetch_throws : string -> bool
}.

(* ================================================================== *)
(** ** The monad: state that survives a throw, and exceptions *)
(* ================================================================== *)

Inductive Res (A : Type) : Type :=
| Ok (a : A) (w : World)
| Threw (e : exn) (w : World).
Arguments Ok {A} a w.
Arguments Threw {A} e w.

Definition M (A : Type) : Type := World -> Res A.

Definition ret {A} (a : A) : M A := fun w => Ok a w.

Definition bind {A B} (m : M A) (k : A -> M B) : M B :=
  fun w => match m w with
           | Ok a w' => k a w'
           | Threw e w' => Threw e w'
           end.

Definition throw {A} (e : exn) : M A := fun w => Threw e w.

(** [try { m } catch (e) { h e }]: the handler runs in the world the throw
    left behind. *)
Definition try_catch {A} (m : M A) (h : exn -> M A) : M A :=
  fun w => match m w with
           | Ok a w' => Ok a w'
           | Threw e w' => h e w'
           end.

Definition get : M World := fun w => Ok w w.
Definition modify (f : World -> World) : M unit := fun w => Ok tt (f w).

Declare Scope js_scope.
Delimit Scope js_scope with js.
Notation "x <- m ;; k" := (bind m (fun x => k))
  (at level 61, m at next level, right associativity) : js_scope.
Notation "m ;; k" := (bind m (fun _ => k))
  (at level 61, right associativity) : js_scope.
Local Open Scope js_scope.

(** The world a computation leaves behind, however it ends. *)
Definition world_of {A} (r : Res A) : World :=
  match r with Ok _ w => w | Threw _ w => w end.

Definition returns {A} (r : Res A) : Prop :=
  match r with Ok _ _ => True | Threw _ _ => False end.

(** Calling an [async] function: nothing it throws reaches the caller (the
    returned promise rejects instead, and every caller here drops it). *)
Definition async (m : M unit) : M unit :=
  try_catch m (fun _ => ret tt).

(* ================================================================== *)
(** ** Rate-limit counters (lines 30-38, 60-64) *)
(* ================================================================== *)

(** The five event types that line 60-64 cap. *)
Inductive capped : Type := Copy | Paste | Cut | TabHidden | Blur.

Definition cap_name (c : capped) : string :=
  match c with
  | Copy => "copy"
  | Paste => "paste"
  | Cut => "cut"
  | TabHidden => "tab_hidden"
  | Blur => "blur"
  end.

Definition cap_limit (c : capped) : Z :=
  match c with
  | Copy => 40
  | Paste => 60
  | Cut => 40
  | TabHidden => 30
  | Blur => 60
  end.

Definition count_of (c : capped) (cs : Counters) : Z :=
  match c with
  | Copy => copy cs
  | Paste => paste cs
  | Cut => cut cs
  | TabHidden => tab_hidden cs
  | Blur => blur cs
  end.

(** [counters.<c>++], as far as the object is concerned. *)
Definition bump (c : capped) (cs : Counters) : Counters :=
  match c with
  | Copy => mkCounters (copy cs + 1) (paste cs) (cut cs) (tab_hidden cs) (blur cs)
  | Paste => mkCounters (copy cs) (paste cs + 1) (cut cs) (tab_hidden cs) (blur cs)
  | Cut => mkCounters (copy cs) (paste cs) (cut cs + 1) (tab_hidden cs) (blur cs)
  | TabHidden => mkCounters (copy cs) (paste cs) (cut cs) (tab_hidden cs + 1) (blur cs)
  | Blur => mkCounters (copy cs) (paste cs) (cut cs) (tab_hidden cs) (blur cs + 1)
  end.

(** The capped type a value names, if any. *)
Definition capped_of (type : value) : option capped :=
  if is_str "copy" type then Some Copy
  else if is_str "paste" type then Some Paste
  else if is_str "cut" type then Some Cut
  else if is_str "tab_hidden" type then Some TabHidden
  else if is_str "blur" type then Some Blur
  else None.

(* ================================================================== *)
(** ** Events (lines 66-74, 100-107) *)
(* ================================================================== *)

(** The object literal of lines 66-74. *)
Definition event_literal (ts : string) (type : value) (task_id session_id : prim)
    (payload : value) (page ua : string) : value :=
  VObj [ ("ts", VStr ts);
         ("type", type);
         ("task_id", VPrim task_id);
         ("session_id", VPrim session_id);
         ("payload", payload);
         ("page", VStr page);
         ("ua", VStr ua) ].

(** [{ note: "trimmed" }]. *)
Definition trimmed_marker : value := VObj [ ("note", VStr "trimmed") ].

(** The arrow function of lines 100-107. *)
Definition trim (e : value) : value :=
  VObj [ ("ts", prop "ts" e);
         ("type", prop "type" e);
         ("task_id", prop "task_id" e);
         ("session_id", prop "session_id" e);
         ("payload", trimmed_marker);
         ("page", prop "page" e) ].

(** [{ events: evs }]. *)
Definition payload_of (evs : list value) : value :=
  VObj [ ("events", VArr evs) ].

(** [payload || {}]. *)
Definition or_empty (payload : value) : value :=
  if truthy payload then payload else VObj [].

(** The argument of [setContext], which its parameter pattern
    [{ sessionId, taskId }] destructures.  A property that is absent reads
    as [PUndefined]. *)
Inductive ctx_arg : Type :=
| ArgUndefined
| ArgNull
| ArgObject (sessionId taskId : prim).

(* ================================================================== *)
(** ** The module's functions *)
(* ================================================================== *)

Section Tracker.

Variable env : Env.

(** [Date.now()] and [new Date()]: one read of the clock. *)
Definition Date_now : M Z :=
  fun w => Ok (clock env (reads (br w)))
              (on_br (set_reads (S (reads (br w)))) w).

(** lines 40-42 *)
Definition nowIso : M string :=
  t <- Date_now ;;
  ret (toISOString env t).

(** [setTimeout(flush, delay)]: identifiers are positive and fresh. *)
Definition setTimeout (delay : Z) : M positive :=
  fun w => let id := next_timer (br w) in
           Ok id (on_br (fun b => set_next_timer (Pos.succ id)
                           (set_timeouts (timeouts b ++ [(id, delay)]) b)) w).

Definition drop_timer (id : positive) (ts : list (positive * Z))
  : list (positive * Z) :=
  filter (fun t => negb (Pos.eqb (fst t) id)) ts.

Definition clearTimeout (id : positive) : M unit :=
  modify (on_br (fun b => set_timeouts (drop_timer id (timeouts b)) b)).

(** [setInterval(heartbeat, delay)]. *)
Definition setInterval (delay : Z) : M positive :=
  fun w => let id := next_timer (br w) in
           Ok id (on_br (fun b => set_next_timer (Pos.succ id)
                           (set_intervals (intervals b ++ [(id, delay)]) b)) w).

Definition clearInterval (id : positive) : M unit :=
  modify (on_br (fun b => set_intervals (drop_timer id (intervals b)) b)).

(** [JSON.stringify(v)]. *)
Definition stringify (v : value) : M string :=
  match JSON_stringify env v with
  | Some s => ret s
  | None => throw TypeError
  end.

(** lines 44-50 *)
Definition resetMinuteWindowIfNeeded : M unit :=
  now <- Date_now ;;
  w <- get ;;
  if MINUTE_MS <=? now - minuteWindowStart (st w)
  then modify (on_st (set_window now zero_counters))
  else ret tt.

(** One of lines 60-64:
    [if (type === "<c>" && counters.<c>++ > <limit>) return;]
    The result says whether [pushEvent] returns here. *)
Definition cap_line (c : capped) (type : value) : M bool :=
  if is_str (cap_name c) type then
    w <- get ;;
    modify (on_st (set_counters (bump c (counters (st w))))) ;;
    ret (cap_limit c <? count_of c (counters (st w)))
  else ret false.

(** lines 60-64 *)
Definition rate_limited (type : value) : M bool :=
  r <- cap_line Copy type ;;
  if r then ret true else
  r <- cap_line Paste type ;;
  if r then ret true else
  r <- cap_line Cut type ;;
  if r then ret true else
  r <- cap_line TabHidden type ;;
  if r then ret true else
  cap_line Blur type.

(** lines 84-90 *)
Definition approxByteSize (obj : value) : M Z :=
  try_catch (s <- stringify obj ;; ret (Blob_size env s))
            (fun _ => ret 0).

(** lines 97-108: the payload handed to the transport. *)
Definition build_payload (batch : list value) : M value :=
  size <- approxByteSize (payload_of batch) ;;
  if MAX_PAYLOAD_BYTES <? size
  then ret (payload_of (map trim batch))
  else ret (payload_of batch).

(** lines 126-132: the catch clause of [flush]. *)
Definition flush_catch (batch : list value) : M unit :=
  modify (on_st (fun s => set_queue (batch ++ queue s) s)) ;;
  w <- get ;;
  match flushTimer (st w) with
  | Some id => clearTimeout id
  | None => ret tt
  end ;;
  id <- setTimeout BACKOFF_MS ;;
  modify (on_st (set_flushTimer (Some id))).

(** [await fetch(ENDPOINT, {..., body})]: the call either throws, or
    returns a promise on which the function suspends, holding [batch]. *)
Definition fetch (body : string) (batch : list value) : M unit :=
  if fetch_throws env body then throw NetworkError
  else modify (on_br (fun b =>
         set_inflight (inflight b ++ [mkRequest body batch]) b)).

(** lines 113-125: the body of the try block. *)
Definition deliver (useBeacon : bool) (payload : value) (batch : list value)
  : M unit :=
  match useBeacon, navigator_sendBeacon env with
  | true, Some send =>
      body <- stringify payload ;;
      match send body with
      | Some _ => modify (on_br (fun b => set_beacons (beacons b ++ [body]) b))
      | None => throw TypeError
      end
  | _, _ =>
      body <- stringify payload ;;
      fetch body batch
  end.

(** lines 92-133, up to the point where the function suspends or returns. *)
Definition flush_body (useBeacon : bool) : M unit :=
  w <- get ;;
  match queue (st w) with
  | [] => ret tt
  | _ :: _ =>
      let batch := firstn MAX_BATCH_SIZE (queue (st w)) in
      modify (on_st (set_queue (skipn MAX_BATCH_SIZE (queue (st w))))) ;;
      payload <- build_payload batch ;;
      now <- Date_now ;;
      modify (on_st (set_lastFlushAt now)) ;;
      try_catch (deliver useBeacon payload batch)
                (fun _ => flush_catch batch)
  end.

Definition flush (useBeacon : bool) : M unit := async (flush_body useBeacon).

(** lines 76-78 *)
Definition schedule_flush : M unit :=
  w <- get ;;
  match flushTimer (st w) with
  | None =>
      id <- setTimeout FLUSH_INTERVAL_MS ;;
      modify (on_st (set_flushTimer (Some id)))
  | Some _ => ret tt
  end.

(** lines 80-81 *)
Definition flush_if_full : M unit :=
  w <- get ;;
  if (MAX_BATCH_SIZE <=? List.length (queue (st w)))%nat
  then flush false
  else ret tt.

(** lines 76-81: what [pushEvent] does once the event is in the queue. *)
Definition after_push : M unit :=
  schedule_flush ;;
  flush_if_full.

(** lines 66-74: [queue.push({...})]. *)
Definition enqueue (type payload : value) : M unit :=
  ts <- nowIso ;;
  modify (on_st (fun s =>
    set_queue (queue s ++ [event_literal ts type (currentTaskId s)
                             (currentSessionId s) (or_empty payload)
                             (pathname env) (userAgent env)]) s)).

(** lines 56-82 *)
Definition pushEvent (type payload : value) : M unit :=
  resetMinuteWindowIfNeeded ;;
  dropped <- rate_limited type ;;
  if dropped then ret tt else
  enqueue type payload ;;
  after_push.

(** [Math.max(0, Math.round((now - since) / 1000))] *)
Definition elapsed_seconds (now since : Z) : Z :=
  Z.max 0 (round_div_1000 (now - since)).

(** lines 136-141 *)
Definition heartbeat : M unit :=
  w <- get ;;
  if negb (truthy_prim (currentTaskId (st w))) then ret tt else
  now <- Date_now ;;
  let secondsOnTask := elapsed_seconds now (lastTaskOpenedAt (st w)) in
  pushEvent (VStr "heartbeat")
            (VObj [ ("seconds_on_task", VNum secondsOnTask) ]).

(** lines 148-153 *)
Definition stopHeartbeat : M unit :=
  w <- get ;;
  match heartbeatTimer (st w) with
  | Some id =>
      clearInterval id ;;
      modify (on_st (set_heartbeatTimer None))
  | None => ret tt
  end.

(** lines 143-146 *)
Definition startHeartbeat : M unit :=
  stopHeartbeat ;;
  id <- setInterval (HEARTBEAT_SEC * 1000) ;;
  modify (on_st (set_heartbeatTimer (Some id))).

(** The parameter pattern [{ sessionId, taskId }] of line 157. *)
Definition destructure (arg : ctx_arg) : M (prim * prim) :=
  match arg with
  | ArgUndefined | ArgNull => throw TypeError
  | ArgObject sessionId taskId => ret (sessionId, taskId)
  end.

(** The payload of line 163. *)
Definition task_switch_payload (from to : prim) (spentSec : Z) : value :=
  VObj [ ("from_task_id", VPrim from);
         ("to_task_id", VPrim to);
         ("seconds_spent", VNum spentSec) ].

(** lines 157-169 *)
Definition setContext (arg : ctx_arg) : M unit :=
  ids <- destructure arg ;;
  let sessionId := fst ids in
  let taskId := snd ids in
  (if defined sessionId
   then modify (on_st (set_currentSessionId sessionId))
   else ret tt) ;;
  (if defined taskId then
     w <- get ;;
     (if truthy_prim (currentTaskId (st w))
         && negb (strict_eq (currentTaskId (st w)) taskId)
      then
        now <- Date_now ;;
        let spentSec := elapsed_seconds now (lastTaskOpenedAt (st w)) in
        pushEvent (VStr "task_switch")
                  (task_switch_payload (currentTaskId (st w)) taskId spentSec)
      else ret tt) ;;
     modify (on_st (set_currentTaskId taskId)) ;;
     now <- Date_now ;;
     modify (on_st (set_lastTaskOpenedAt now))
   else ret tt) ;;
  startHeartbeat.

(** lines 170-172 *)
Definition log (type payload : value) : M unit := pushEvent type payload.

(** lines 173-175 *)
Definition public_flush : M unit := flush false.

(** lines 208-214: the beforeunload listener. *)
Definition on_beforeunload : M unit :=
  pushEvent (VStr "exit") (VObj []) ;;
  flush true ;;
  stopHeartbeat.

(** *** What the browser does to the module *)

(** A pending timeout fires: it leaves the timer table and [flush] is
    called with no argument. *)
Definition timeout_fires (id : positive) : M unit :=
  w <- get ;;
  if existsb (fun t => Pos.eqb (fst t) id) (timeouts (br w)) then
    modify (on_br (fun b => set_timeouts (drop_timer id (timeouts b)) b)) ;;
    flush false
  else ret tt.

(** An active interval fires. *)
Definition interval_fires (id : positive) : M unit :=
  w <- get ;;
  if existsb (fun t => Pos.eqb (fst t) id) (intervals (br w))
  then heartbeat
  else ret tt.

Definition remove_nth {A} (n : nat) (l : list A) : list A :=
  firstn n l ++ skipn (S n) l.

(** The promise of the n-th awaited request rejects: the suspended [flush]
    resumes in its catch clause. *)
Definition fetch_rejects (n : nat) : M unit :=
  w <- get ;;
  match nth_error (inflight (br w)) n with
  | Some r =>
      modify (on_br (fun b => set_inflight (remove_nth n (inflight b)) b)) ;;
      async (flush_catch (req_batch r))
  | None => ret tt
  end.

(** The promise of the n-th awaited request fulfils: the suspended [flush]
    returns. *)
Definition fetch_fulfils (n : nat) : M unit :=
  modify (on_br (fun b => set_inflight (remove_nth n (inflight b)) b)).

(** The state at the end of the module's top-level code: two clock reads
    (lines 23 and 31), nothing scheduled. *)
Definition init : World :=
  mkWorld
    (mkState PNull PNull (clock env 0%nat) [] 0 None None (clock env 1%nat)
             zero_counters)
    (mkBrowser 2 1 [] [] [] []).

(** Everything that can happen to the module, and a run of such steps. *)
Inductive action : Type :=
| CallSetContext (arg : ctx_arg)
| CallLog (type payload : value)
| CallFlush
| TimeoutFires (id : positive)
| IntervalFires (id : positive)
| FetchRejects (n : nat)
| FetchFulfils (n : nat)
| BeforeUnload.

Definition perform (a : action) : M unit :=
  match a with
  | CallSetContext arg => setContext arg
  | CallLog type payload => log type payload
  | CallFlush => public_flush
  | TimeoutFires id => timeout_fires id
  | IntervalFires id => interval_fires id
  | FetchRejects n => fetch_rejects n
  | FetchFulfils n => fetch_fulfils n
  | BeforeUnload => on_beforeunload
  end.

(** A throw out of a step ends that step; the page goes on. *)
Fixpoint run (acts : list action) (w : World) : World :=
  match acts with
  | [] => w
  | a :: rest => run rest (world_of (perform a w))
  end.

End Tracker.

(* ================================================================== *)
(** ** The DOM listeners (lines 52-54, 178-206) *)
(* ================================================================== *)

(** A string of the page, as the browser holds it: the sequence of its
    UTF-16 code units.  Its [length] is the number of those units, so a
    character outside the basic plane counts twice. *)
Definition utf16 : Type := list N.

(** What the browser hands to a listener.  [selection] is what
    [document.getSelection()] returns: [None] for null, [Some s] for a
    Selection whose [toString()] is [s].  [clipboardData] is the property
    of the paste event: [None] for null, [Some None] for a DataTransfer
    whose [getData("text")] throws, [Some (Some s)] for one that returns
    [s].  [hidden] is [document.hidden]. *)
Inductive dom_event : Type :=
| DomCopy (selection : option utf16)
| DomCut (selection : option utf16)
| DomPaste (clipboardData : option (option utf16))
| DomVisibilityChange (hidden : bool)
| DomBlur
| DomFocus.

(** What reaches [safeTextLen]: a string, or nothing. *)
Inductive text : Type :=
| TextUndefined
| TextNull
| TextString (s : utf16).

(** Of these, only a string that is not empty is truthy. *)
Definition text_truthy (t : text) : bool :=
  match t with
  | TextString (_ :: _) => true
  | _ => false
  end.

(** [t.length]; reading it off null or undefined throws. *)
Definition length_of (t : text) : option value :=
  match t with
  | TextUndefined | TextNull => None
  | TextString s => Some (VNum (Z.of_nat (List.length s)))
  end.

(** [t || ""]. *)
Definition or_empty_string (t : text) : text :=
  if text_truthy t then t else TextString [].

Section Listeners.

Variable env : Env.

(** lines 52-54 *)
Definition safeTextLen (t : text) : M value :=
  match length_of (or_empty_string t) with
  | Some n => ret n
  | None => throw TypeError
  end.

(** [(document.getSelection() || "").toString()] *)
Definition selection_text (selection : option utf16) : text :=
  match selection with
  | Some s => TextString s
  | None => TextString []
  end.

(** lines 179-181 *)
Definition on_copy (selection : option utf16) : M unit :=
  n <- safeTextLen (selection_text selection) ;;
  pushEvent env (VStr "copy") (VObj [ ("selection_len", n) ]).

(** lines 183-185 *)
Definition on_cut (selection : option utf16) : M unit :=
  n <- safeTextLen (selection_text selection) ;;
  pushEvent env (VStr "cut") (VObj [ ("selection_len", n) ]).

(** [(e.clipboardData && e.clipboardData.getData("text")) || ""] *)
Definition clipboard_text (clipboardData : option (option utf16)) : M text :=
  match clipboardData with
  | None => ret (or_empty_string TextNull)
  | Some None => throw TypeError
  | Some (Some s) => ret (or_empty_string (TextString s))
  end.

(** lines 187-194: [len] is 0 unless the try block gets to assign it. *)
Definition on_paste (clipboardData : option (option utf16)) : M unit :=
  len <- try_catch (txt <- clipboard_text clipboardData ;; safeTextLen txt)
                   (fun _ => ret (VNum 0)) ;;
  pushEvent env (VStr "paste") (VObj [ ("pasted_len", len) ]).

(** lines 196-198 *)
Definition on_visibilitychange (hidden : bool) : M unit :=
  pushEvent env (VStr (if hidden then "tab_hidden" else "tab_visible"))
            (VObj []).

(** lines 200-202 *)
Definition on_blur : M unit := pushEvent env (VStr "blur") (VObj []).

(** lines 204-206 *)
Definition on_focus : M unit := pushEvent env (VStr "focus") (VObj []).

Definition listener (d : dom_event) : M unit :=
  match d with
  | DomCopy selection => on_copy selection
  | DomCut selection => on_cut selection
  | DomPaste clipboardData => on_paste clipboardData
  | DomVisibilityChange hidden => on_visibilitychange hidden
  | DomBlur => on_blur
  | DomFocus => on_focus
  end.

End Listeners.

(* ================================================================== *)
(** ** Vocabulary of the properties *)
(* ================================================================== *)

Section Vocabulary.

Variable env : Env.

(** The world lines 57-64 leave behind: one clock read, the window moved
    and the counters cleared when a minute has passed, and the counter of a
    capped type incremented. *)
Definition limiter_pass (type : value) (w : World) : World :=
  let now := clock env (reads (br w)) in
  let w1 := on_br (set_reads (S (reads (br w)))) w in
  let w2 := if MINUTE_MS <=? now - minuteWindowStart (st w)
            then on_st (set_window now zero_counters) w1
            else w1 in
  match capped_of type with
  | Some c => on_st (set_counters (bump c (counters (st w2)))) w2
  | None => w2
  end.

(** The counters against which lines 60-64 test a push made in [w]. *)
Definition counters_at_test (w : World) : Counters :=
  if MINUTE_MS <=? clock env (reads (br w)) - minuteWindowStart (st w)
  then zero_counters
  else counters (st w).

(** The event a push made in [w] builds: it reads the clock once and
    captures the task and session of [w]. *)
Definition event_in (type payload : value) (w : World) : value :=
  event_literal (toISOString env (clock env (reads (br w)))) type
                (currentTaskId (st w)) (currentSessionId (st w))
                (or_empty payload) (pathname env) (userAgent env).

(** The world with that one event appended to the queue. *)
Definition with_event (type payload : value) (w : World) : World :=
  on_st (fun s => set_queue (queue s ++ [event_in type payload w]) s)
        (on_br (set_reads (S (reads (br w)))) w).

(** A push that is accepted: the rate limiter passes, exactly one event is
    appended, and lines 76-81 follow. *)
Definition accepted (type payload : value) (w : World) : Prop :=
  pushEvent env type payload w
  = after_push env (with_event type payload (limiter_pass type w)).

(** A push that is dropped: it returns having touched nothing but the
    limiter. *)
Definition dropped (type payload : value) (w : World) : Prop :=
  pushEvent env type payload w = Ok tt (limiter_pass type w).

(** The size [approxByteSize] reports for an object. *)
Definition reported_size (obj : value) : Z :=
  match JSON_stringify env obj with
  | Some s => Blob_size env s
  | None => 0
  end.

(** The world in which [flush] reaches its try block: the batch is off the
    queue and the attempt is timestamped. *)
Definition at_delivery (w : World) : World :=
  on_st (fun s => set_lastFlushAt (clock env (reads (br w)))
                    (set_queue (skipn MAX_BATCH_SIZE (queue s)) s))
        (on_br (set_reads (S (reads (br w)))) w).

(** The payload [flush] hands to the transport for a batch. *)
Definition payload_for (batch : list value) : value :=
  if MAX_PAYLOAD_BYTES <? reported_size (payload_of batch)
  then payload_of (map trim batch)
  else payload_of batch.

(** The reads of the clock numbered [from] up to, and not including,
    [upto] all fall inside the window that started at [start]. *)
Definition reads_within (start : Z) (from upto : nat) : Prop :=
  forall n, (from <= n < upto)%nat -> clock env n - start < MINUTE_MS.

(** A step that submits an event of the capped type [c] to [log]. *)
Definition submits (c : capped) (a : action) : bool :=
  match a with
  | CallLog type _ => is_str (cap_name c) type
  | _ => false
  end.

(** The number of such submissions in a run. *)
Definition submissions (c : capped) (acts : list action) : nat :=
  List.length (filter (submits c) acts).

(** A run [acts] from [w] that stays inside one window, followed from
    the first state of that window for [c].  Either the counter of [c] is
    clear in [w] and every read of the clock the run makes, and the one the
    next push makes after it, falls inside the window of [w]; or the
    window of [w] has expired, the first step of the run is a push, which
    opens a window at the time it reads, and the same reads fall inside
    that one.  Nothing is asked of the clock before or after. *)
Definition fresh_window (c : capped) (acts : list action) (w : World)
  : Prop :=
  let from := reads (br w) in
  let upto := S (reads (br (run env acts w))) in
  (count_of c (counters (st w)) = 0
   /\ reads_within (minuteWindowStart (st w)) from upto)
  \/ (MINUTE_MS <= clock env from - minuteWindowStart (st w)
      /\ match acts with
         | [] => True
         | CallLog _ _ :: _ => reads_within (clock env from) from upto
         | _ :: _ => False
         end).

(** What the limiter holds for [c] in a world reached from one where the
    clock had been read [from] times and the window started at [start]:
    the clock has not been read backwards, and if every read since fell
    inside that window, the window has not moved and [c] counts
    [total]. *)
Definition counted (c : capped) (start : Z) (from : nat) (total : Z)
    (w : World) : Prop :=
  (from <= reads (br w))%nat
  /\ (reads_within start from (reads (br w)) ->
      minuteWindowStart (st w) = start
      /\ count_of c (counters (st w)) = total).

End Vocabulary.

(** The world [setContext] leaves once the session id is stored. *)
Definition with_session (sessionId : prim) (w : World) : World :=
  if defined sessionId then on_st (set_currentSessionId sessionId) w else w.

(** Every pending timeout is the one [flushTimer] names. *)
Definition timers_ok (w : World) : Prop :=
  match flushTimer (st w) with
  | None => timeouts (br w) = []
  | Some id => forall t, In t (timeouts (br w)) -> fst t = id
  end.

(** Objects built by the literal of lines 66-74. *)
Definition is_event (e : value) : Prop :=
  exists ts type task_id session_id payload page ua,
    e = event_literal ts type task_id session_id payload page ua.

(** The queue and every batch held by a suspended [flush] hold events. *)
Definition events_ok (w : World) : Prop :=
  Forall is_event (queue (st w))
  /\ Forall (fun r => Forall is_event (req_batch r)) (inflight (br w)).

Definition event_fields : list string :=
  ["ts"; "type"; "task_id"; "session_id"; "payload"; "page"; "ua"].

Definition trimmed_fields : list string :=
  ["ts"; "type"; "task_id"; "session_id"; "payload"; "page"].

(** The events list of a payload object. *)
Definition delivered_events (payload : value) : list value :=
  match prop "events" payload with
  | VArr evs => evs
  | _ => []
  end.

(** An object whose own properties are exactly those named. *)
Definition has_exactly (names : list string) (o : value) : Prop :=
  forall k, In k (keys o) <-> In k names.

(** [m] never throws. *)
Definition safe {A} (m : M A) : Prop := forall w, returns (m w).

(** [m] maintains [P], however it ends. *)
Definition maintains {A} (P : World -> Prop) (m : M A) : Prop :=
  forall w, P w -> P (world_of (m w)).

(** [m] leaves the view [f] of the world alone. *)
Definition frames {A V} (f : World -> V) (m : M A) : Prop :=
  forall v, maintains (fun w => f w = v) m.

(** What the rate limiter owns. *)
Definition limiter_view (w : World) : Z * Counters :=
  (minuteWindowStart (st w), counters (st w)).

(** What the task context owns. *)
Definition context_view (w : World) : prim * prim * Z :=
  (currentTaskId (st w), currentSessionId (st w), lastTaskOpenedAt (st w)).

(** Where events are: the queue, the awaited requests, the beacons. *)
Definition traffic_view (w : World) : list value * list Request * list string :=
  (queue (st w), inflight (br w), beacons (br w)).

(** The flush timer: the variable and the table. *)
Definition timer_view (w : World)
  : option positive * list (positive * Z) :=
  (flushTimer (st w), timeouts (br w)).

(** An event the module still holds: it is in the queue, or in the batch
    of a flush that is awaiting its request. *)
Definition held (e : value) (w : World) : Prop :=
  In e (queue (st w))
  \/ exists r, In r (inflight (br w)) /\ In e (req_batch r).

(** The steps that take an event out of the module's hands: a request is
    answered, or the page unloads and the queue is handed to sendBeacon. *)
Definition releases (a : action) : bool :=
  match a with
  | FetchFulfils _ | BeforeUnload => true
  | _ => false
  end.

(** No event in the queue, in an awaited request or in a beacon. *)
Definition no_event_anywhere (w : World) : Prop :=
  traffic_view w = ([], [], []).

(** C1 as the specification words it: after the failure the queue is the
    batch followed by the events enqueued since the flush began. *)
Definition requeued_as_claimed (batch since : list value) (after : World)
  : Prop :=
  queue (st after) = batch ++ since.

(** C5 as the specification words it, for one platform: every event
    delivered has exactly the seven properties. *)
Definition seven_fields_always (env : Env) : Prop :=
  forall batch e,
    Forall is_event batch ->
    In e (delivered_events (payload_for env batch)) ->
    has_exactly event_fields e.

(** C9 as the specification words it, for [setContext]. *)
Definition setContext_never_throws (env : Env) : Prop :=
  forall arg w, returns (setContext env arg w).

(** *** Platforms used in the examples *)

(** A frozen clock, a serializer that never fails, a network that accepts
    every request, no sendBeacon. *)
Definition quiet_env : Env :=
  mkEnv (fun _ => 0) (fun _ => "1970-01-01T00:00:00.000Z") "/tasks" "UA"
        (fun _ => Some "{}") (fun _ => 2) None (fun _ => false).

(** The same, with every Blob over the payload cap. *)
Definition heavy_env : Env :=
  mkEnv (fun _ => 0) (fun _ => "1970-01-01T00:00:00.000Z") "/tasks" "UA"
        (fun _ => Some "{}") (fun _ => 30001) None (fun _ => false).

(** The same as [quiet_env], with [fetch] throwing at every call. *)
Definition offline_env : Env :=
  mkEnv (fun _ => 0) (fun _ => "1970-01-01T00:00:00.000Z") "/tasks" "UA"
        (fun _ => Some "{}") (fun _ => 2) None (fun _ => true).

(** A clock that advances one second per read. *)
Definition ticking_env : Env :=
  mkEnv (fun n => 1000 * Z.of_nat n) (fun _ => "t") "/tasks" "UA"
        (fun _ => Some "{}") (fun _ => 2) None (fun _ => false).

(** A clock that advances one millisecond per read. *)
Definition millisecond_env : Env :=
  mkEnv (fun n => Z.of_nat n) (fun _ => "t") "/tasks" "UA"
        (fun _ => Some "{}") (fun _ => 2) None (fun _ => false).

(** A clock that advances one minute per read. *)
Definition minute_env : Env :=
  mkEnv (fun n => 60000 * Z.of_nat n) (fun _ => "t") "/tasks" "UA"
        (fun _ => Some "{}") (fun _ => 2) None (fun _ => false).

(** A serializer that always throws. *)
Definition unserializable_env : Env :=
  mkEnv (fun _ => 0) (fun _ => "1970-01-01T00:00:00.000Z") "/tasks" "UA"
        (fun _ => None) (fun _ => 2) None (fun _ => false).

(** A world of [ticking_env] in which task 7 was opened at time 2000. *)
Definition on_task_7 : World :=
  run ticking_env [CallSetContext (ArgObject PUndefined (PNum 7))]
      (init ticking_env).

Definition focus : action := CallLog (VStr "focus") (VObj []).

(** One submission of a capped type. *)
Definition submit (c : capped) : action :=
  CallLog (VStr (cap_name c)) (VObj []).

(** Forty copies with other traffic in between: a paste, task 7 opened and
    left for task 8, a heartbeat, a flush and its response, a focus. *)
Definition busy_minute : list action :=
  repeat (submit Copy) 20
  ++ [ submit Paste;
       CallSetContext (ArgObject PUndefined (PNum 7));
       CallSetContext (ArgObject PUndefined (PNum 8));
       IntervalFires 3;
       CallFlush;
       FetchFulfils 0;
       focus ]
  ++ repeat (submit Copy) 20.

Definition focus_event : value :=
  event_literal "1970-01-01T00:00:00.000Z" (VStr "focus") PNull PNull
                (VObj []) "/tasks" "UA".

Definition first_event : value :=
  event_literal "1970-01-01T00:00:00.000Z" (VStr "first") PNull PNull
                (VObj []) "/tasks" "UA".

(** *** Vocabulary for the listeners, the timers and the queue bound *)

(** The length a listener reports for a text: the number of its code
    units. *)
Definition text_len (s : utf16) : value := VNum (Z.of_nat (List.length s)).

(** The text [h e-acute l l o space grinning-face]: seven characters, the
    last one a surrogate pair. *)
Definition hello_face : utf16 :=
  [104; 233; 108; 108; 111; 32; 55357; 56832]%N.

(** The event type a listener pushes. *)
Definition dom_type (d : dom_event) : string :=
  match d with
  | DomCopy _ => "copy"
  | DomCut _ => "cut"
  | DomPaste _ => "paste"
  | DomVisibilityChange true => "tab_hidden"
  | DomVisibilityChange false => "tab_visible"
  | DomBlur => "blur"
  | DomFocus => "focus"
  end.

(** The payload a listener pushes: a length, or nothing. *)
Definition dom_payload (d : dom_event) : value :=
  match d with
  | DomCopy (Some s) | DomCut (Some s) => VObj [ ("selection_len", text_len s) ]
  | DomCopy None | DomCut None => VObj [ ("selection_len", VNum 0) ]
  | DomPaste (Some (Some s)) => VObj [ ("pasted_len", text_len s) ]
  | DomPaste _ => VObj [ ("pasted_len", VNum 0) ]
  | DomVisibilityChange _ | DomBlur | DomFocus => VObj []
  end.

(** The flush timer at rest: nothing pending, or one timeout, the one
    [flushTimer] names, due after the flush interval or after the backoff. *)
Definition flush_timer_shape (w : World) : Prop :=
  match flushTimer (st w) with
  | None => timeouts (br w) = []
  | Some id =>
      timeouts (br w) = []
      \/ timeouts (br w) = [(id, FLUSH_INTERVAL_MS)]
      \/ timeouts (br w) = [(id, BACKOFF_MS)]
  end.

(** The heartbeat timer at rest: the active intervals are the one
    [heartbeatTimer] names, every 10000 ms, or none when it is null. *)
Definition heartbeat_timer_shape (w : World) : Prop :=
  intervals (br w)
  = match heartbeatTimer (st w) with
    | None => []
    | Some id => [(id, HEARTBEAT_SEC * 1000)]
    end.

(** The heartbeat timer: the variable and the table. *)
Definition heartbeat_view (w : World)
  : option positive * list (positive * Z) :=
  (heartbeatTimer (st w), intervals (br w)).

(** A platform on which no delivery fails inside the call: the serializer
    never throws and [fetch] never throws. *)
Definition accepting (env : Env) : Prop :=
  (forall v, JSON_stringify env v <> None)
  /\ (forall body, fetch_throws env body = false).

(** Fewer events queued than make a batch. *)
Definition below_batch (w : World) : Prop :=
  (List.length (queue (st w)) < MAX_BATCH_SIZE)%nat.

Definition is_reject (a : action) : bool :=
  match a with
  | FetchRejects _ => true
  | _ => false
  end.

(** [m], started in a state of [P], ends in a state of [Q]. *)
Definition ensures {A} (P Q : World -> Prop) (m : M A) : Prop :=
  forall w, P w -> Q (world_of (m w)).

(** Lines 158-167: [setContext] before the heartbeat is restarted. *)
Definition context_update (env : Env) (sessionId taskId : prim) : M unit :=
  (if defined sessionId
   then modify (on_st (set_currentSessionId sessionId))
   else ret tt) ;;
  (if defined taskId then
     w <- get ;;
     (if truthy_prim (currentTaskId (st w))
         && negb (strict_eq (currentTaskId (st w)) taskId)
      then
        now <- Date_now env ;;
        let spentSec := elapsed_seconds now (lastTaskOpenedAt (st w)) in
        pushEvent env (VStr "task_switch")
                  (task_switch_payload (currentTaskId (st w)) taskId spentSec)
      else ret tt) ;;
     modify (on_st (set_currentTaskId taskId)) ;;
     now <- Date_now env ;;
     modify (on_st (set_lastTaskOpenedAt now))
   else ret tt).

(** A platform with a sendBeacon that queues every body. *)
Definition beacon_env : Env :=
  mkEnv (fun _ => 0) (fun _ => "1970-01-01T00:00:00.000Z") "/tasks" "UA"
        (fun _ => Some "{}") (fun _ => 2) (Some (fun _ => Some true))
        (fun _ => false).

(** A platform with a sendBeacon that refuses every body. *)
Definition refusing_beacon_env : Env :=
  mkEnv (fun _ => 0) (fun _ => "1970-01-01T00:00:00.000Z") "/tasks" "UA"
        (fun _ => Some "{}") (fun _ => 2) (Some (fun _ => Some false))
        (fun _ => false).

Definition exit_event : value :=
  event_literal "1970-01-01T00:00:00.000Z" (VStr "exit") PNull PNull
                (VObj []) "/tasks" "UA".

(* ================================================================== *)
(** ** Reasoning about the monad *)
(* ================================================================== *)

Section MonadFacts.

Context {A B : Type}.

Lemma safe_ret (a : A) : safe (ret a).
Proof. intro w; exact I. Qed.

Lemma safe_bind (m : M A) (k : A -> M B) :
  safe m -> (forall a, safe (k a)) -> safe (bind m k).
Proof.
  intros Hm Hk w. unfold bind.
  specialize (Hm w). destruct (m w) as [a w'|e w']; [apply Hk | contradiction].
Qed.

(** A try whose handler never throws never throws. *)
Lemma safe_try_catch (m : M A) (h : exn -> M A) :
  (forall e, safe (h e)) -> safe (try_catch m h).
Proof.
  intros Hh w. unfold try_catch.
  destruct (m w) as [a w'|e w']; [exact I | apply Hh].
Qed.

Lemma safe_ok (m : M A) (w : World) :
  safe m -> exists a, m w = Ok a (world_of (m w)).
Proof.
  intro H. specialize (H w). destruct (m w) as [a w'|e w'];
    [exists a; reflexivity | contradiction].
Qed.

Variable P : World -> Prop.

Lemma maintains_ret (a : A) : maintains P (ret a).
Proof. intros w H; exact H. Qed.

Lemma maintains_throw (e : exn) : maintains P (@throw A e).
Proof. intros w H; exact H. Qed.

Lemma maintains_bind (m : M A) (k : A -> M B) :
  maintains P m -> (forall a, maintains P (k a)) -> maintains P (bind m k).
Proof.
  intros Hm Hk w Hw. unfold bind.
  specialize (Hm w Hw). destruct (m w) as [a w'|e w']; simpl in *;
    [apply Hk; exact Hm | exact Hm].
Qed.

Lemma maintains_try_catch (m : M A) (h : exn -> M A) :
  maintains P m -> (forall e, maintains P (h e)) -> maintains P (try_catch m h).
Proof.
  intros Hm Hh w Hw. unfold try_catch.
  specialize (Hm w Hw). destruct (m w) as [a w'|e w']; simpl in *;
    [exact Hm | apply Hh; exact Hm].
Qed.

End MonadFacts.

Lemma safe_get : safe get.
Proof. intro w; exact I. Qed.

Lemma safe_modify (f : World -> World) : safe (modify f).
Proof. intro w; exact I. Qed.

Lemma safe_async (m : M unit) : safe (async m).
Proof. apply safe_try_catch. intro e. apply safe_ret. Qed.

Lemma safe_unit (m : M unit) (w : World) :
  safe m -> m w = Ok tt (world_of (m w)).
Proof.
  intro H. destruct (safe_ok m w H) as [[] E]. exact E.
Qed.

Lemma maintains_get (P : World -> Prop) : maintains P get.
Proof. intros w H; exact H. Qed.

Lemma maintains_modify (P : World -> Prop) (f : World -> World) :
  (forall w, P w -> P (f w)) -> maintains P (modify f).
Proof. intros H w Hw. simpl. apply H, Hw. Qed.

Lemma maintains_async (P : World -> Prop) (m : M unit) :
  maintains P m -> maintains P (async m).
Proof.
  intro H. apply maintains_try_catch; [exact H | intro; apply maintains_ret].
Qed.

Lemma frames_eq {A V} (f : World -> V) (m : M A) (w : World) :
  frames f m -> f (world_of (m w)) = f w.
Proof. intro H. apply (H (f w) w). reflexivity. Qed.

(** *** Tactics: walk a computation along its binds, tries and branches *)

Ltac head_of t :=
  lazymatch t with
  | ?f _ => head_of f
  | _ => t
  end.

Ltac unfold_head m := let h := head_of m in unfold h.

Ltac safe_step :=
  lazymatch goal with
  | |- safe (bind _ _) => apply safe_bind; [ | intro ]
  | |- safe (try_catch _ _) => apply safe_try_catch; intro
  | |- safe (ret _) => apply safe_ret
  | |- safe get => apply safe_get
  | |- safe (modify _) => apply safe_modify
  | |- safe (async _) => apply safe_async
  | |- safe (match ?x with _ => _ end) => destruct x
  | |- safe (fun _ => Ok _ _) => intro; exact I
  | |- safe ?m => unfold_head m
  end.

Ltac safe_walk := repeat safe_step.

Ltac maintains_step :=
  lazymatch goal with
  | |- maintains _ (bind _ _) => apply maintains_bind; [ | intro ]
  | |- maintains _ (try_catch _ _) => apply maintains_try_catch; [ | intro ]
  | |- maintains _ (ret _) => apply maintains_ret
  | |- maintains _ (throw _) => apply maintains_throw
  | |- maintains _ get => apply maintains_get
  | |- maintains _ (async _) => apply maintains_async
  | |- maintains _ (match ?x with _ => _ end) => destruct x
  | |- maintains _ (modify _) =>
      apply maintains_modify; let w := fresh "w" in let H := fresh "H" in
      intros w H
  | |- maintains _ (fun _ => Ok _ _) =>
      let w := fresh "w" in let H := fresh "H" in intros w H
  | |- maintains _ ?m => unfold_head m
  end.

(** Walk, closing with [leaf] what the lemmas of [db] do not. *)
Ltac maintains_walk leaf :=
  repeat first [ assumption | solve [leaf] | progress maintains_step ].

(** *** A walker that keeps its leaf tactic for the leaves *)

Ltac maintains_walk_with lem leaf :=
  repeat first
    [ assumption
    | solve [lem]
    | progress maintains_step
    | lazymatch goal with
      | |- maintains _ _ => fail
      | _ => solve [leaf]
      end ].

Ltac frame_leaf := cbn in *; assumption.

Ltac frames_walk :=
  let v := fresh "v" in intro v; maintains_walk frame_leaf.

(* ================================================================== *)
(** ** The module never throws, except at the parameter pattern *)
(* ================================================================== *)

Section Safety.

Variable env : Env.

Lemma safe_approxByteSize obj : safe (approxByteSize env obj).
Proof. unfold approxByteSize. safe_walk. Qed.

Lemma safe_build_payload batch : safe (build_payload env batch).
Proof.
  unfold build_payload. apply safe_bind; [apply safe_approxByteSize|].
  intro. safe_walk.
Qed.

Lemma safe_flush_catch batch : safe (flush_catch batch).
Proof. safe_walk. Qed.

(** The promise [flush] returns never rejects. *)
Lemma safe_flush_body useBeacon : safe (flush_body env useBeacon).
Proof.
  unfold flush_body. apply safe_bind; [apply safe_get|]. intro w.
  destruct (queue (st w)); [apply safe_ret|].
  apply safe_bind; [apply safe_modify|]. intros _.
  apply safe_bind; [apply safe_build_payload|]. intro payload.
  apply safe_bind; [intro; exact I|]. intro now.
  apply safe_bind; [apply safe_modify|]. intros _.
  apply safe_try_catch. intro. apply safe_flush_catch.
Qed.

Lemma safe_flush useBeacon : safe (flush env useBeacon).
Proof. apply safe_async. Qed.

Lemma safe_after_push : safe (after_push env).
Proof.
  unfold after_push. apply safe_bind; [safe_walk|]. intros _.
  unfold flush_if_full. apply safe_bind; [apply safe_get|]. intro w.
  destruct (_ <=? _)%nat; [apply safe_flush | apply safe_ret].
Qed.

Lemma safe_rate_limited type : safe (rate_limited type).
Proof. safe_walk. Qed.

Lemma safe_pushEvent type payload : safe (pushEvent env type payload).
Proof.
  unfold pushEvent. apply safe_bind; [safe_walk|]. intros _.
  apply safe_bind; [apply safe_rate_limited|]. intros [|]; [apply safe_ret|].
  apply safe_bind; [safe_walk|]. intros _. apply safe_after_push.
Qed.

Lemma safe_heartbeat : safe (heartbeat env).
Proof.
  unfold heartbeat. apply safe_bind; [apply safe_get|]. intro w.
  destruct (negb _); [apply safe_ret|].
  apply safe_bind; [intro; exact I|]. intro. apply safe_pushEvent.
Qed.

Lemma safe_stopHeartbeat : safe stopHeartbeat.
Proof. safe_walk. Qed.

Lemma safe_startHeartbeat : safe startHeartbeat.
Proof. safe_walk. Qed.

Lemma safe_setContext_object sessionId taskId :
  safe (setContext env (ArgObject sessionId taskId)).
Proof.
  unfold setContext. apply safe_bind; [safe_walk|]. intro ids.
  apply safe_bind; [safe_walk|]. intros _.
  apply safe_bind; [|intros _; apply safe_startHeartbeat].
  destruct (defined _); [|apply safe_ret].
  apply safe_bind; [apply safe_get|]. intro w.
  apply safe_bind; [|intros _; safe_walk].
  destruct (_ && _); [|apply safe_ret].
  apply safe_bind; [intro; exact I|]. intro. apply safe_pushEvent.
Qed.

Lemma safe_fetch_rejects n : safe (fetch_rejects n).
Proof.
  unfold fetch_rejects. apply safe_bind; [apply safe_get|]. intro w.
  destruct (nth_error _ _); [|apply safe_ret].
  apply safe_bind; [apply safe_modify|]. intros _. apply safe_async.
Qed.

Lemma safe_timeout_fires id : safe (timeout_fires env id).
Proof.
  unfold timeout_fires. apply safe_bind; [apply safe_get|]. intro w.
  destruct (existsb _ _); [|apply safe_ret].
  apply safe_bind; [apply safe_modify|]. intros _. apply safe_flush.
Qed.

End Safety.

(* ================================================================== *)
(** ** The rate limiter and [pushEvent], as equations *)
(* ================================================================== *)

Section PushEvent.

Variable env : Env.

(** Lines 60-64 touch one counter at most, and only the type's own line
    can return. *)
Lemma rate_limited_eq type w :
  rate_limited type w
  = match capped_of type with
    | Some c => Ok (cap_limit c <? count_of c (counters (st w)))
                   (on_st (set_counters (bump c (counters (st w)))) w)
    | None => Ok false w
    end.
Proof.
  unfold rate_limited, capped_of, cap_line, is_str.
  destruct type as [[ | | b | n | s] | fs | items]; try reflexivity.
  cbn [cap_name].
  destruct (String.eqb_spec s "copy") as [->|_].
  { cbn. destruct (40 <? _); reflexivity. }
  destruct (String.eqb_spec s "paste") as [->|_].
  { cbn. destruct (60 <? _); reflexivity. }
  destruct (String.eqb_spec s "cut") as [->|_].
  { cbn. destruct (40 <? _); reflexivity. }
  destruct (String.eqb_spec s "tab_hidden") as [->|_].
  { cbn. destruct (30 <? _); reflexivity. }
  destruct (String.eqb_spec s "blur") as [->|_]; reflexivity.
Qed.

Lemma enqueue_eq type payload w :
  enqueue env type payload w = Ok tt (with_event env type payload w).
Proof. reflexivity. Qed.

(** [pushEvent] in one equation: the limiter decides between returning at
    once and appending one event. *)
Lemma pushEvent_eq type payload w :
  pushEvent env type payload w
  = if match capped_of type with
       | Some c => cap_limit c <? count_of c (counters_at_test env w)
       | None => false
       end
    then Ok tt (limiter_pass env type w)
    else after_push env (with_event env type payload (limiter_pass env type w)).
Proof.
  unfold pushEvent, bind at 1 2.
  unfold resetMinuteWindowIfNeeded, bind, Date_now, get.
  unfold limiter_pass, counters_at_test.
  destruct (MINUTE_MS <=? _); cbn [modify ret]; rewrite rate_limited_eq;
    destruct (capped_of type) as [c|]; cbn [st on_st on_br counters set_window];
    try reflexivity;
    destruct (cap_limit c <? _); reflexivity.
Qed.

Lemma pushEvent_uncapped type payload w :
  capped_of type = None -> accepted env type payload w.
Proof.
  intro H. unfold accepted. rewrite pushEvent_eq, H. reflexivity.
Qed.

Lemma pushEvent_under_cap c type payload w :
  capped_of type = Some c ->
  count_of c (counters_at_test env w) <= cap_limit c ->
  accepted env type payload w.
Proof.
  intros H Hle. unfold accepted. rewrite pushEvent_eq, H.
  destruct (Z.ltb_spec (cap_limit c) (count_of c (counters_at_test env w)));
    [lia | reflexivity].
Qed.

Lemma pushEvent_over_cap c type payload w :
  capped_of type = Some c ->
  cap_limit c < count_of c (counters_at_test env w) ->
  dropped env type payload w.
Proof.
  intros H Hlt. unfold dropped. rewrite pushEvent_eq, H.
  destruct (Z.ltb_spec (cap_limit c) (count_of c (counters_at_test env w)));
    [reflexivity | lia].
Qed.

Lemma capped_of_name c : capped_of (VStr (cap_name c)) = Some c.
Proof. destruct c; reflexivity. Qed.

Lemma count_of_bump c cs : count_of c (bump c cs) = count_of c cs + 1.
Proof. destruct c; reflexivity. Qed.

Lemma count_of_zero c : count_of c zero_counters = 0.
Proof. destruct c; reflexivity. Qed.

End PushEvent.

(* ================================================================== *)
(** ** Who touches what *)
(* ================================================================== *)

Section Frames.

Variable env : Env.

(** Flushing, in any of its forms, does not touch the limiter. *)
Lemma flush_catch_frames_limiter batch :
  frames limiter_view (flush_catch batch).
Proof. frames_walk. Qed.

Lemma flush_frames_limiter useBeacon :
  frames limiter_view (flush env useBeacon).
Proof. frames_walk. Qed.

Lemma after_push_frames_limiter : frames limiter_view (after_push env).
Proof. frames_walk. Qed.

(** Nor does flushing, scheduling or pushing touch the task context. *)
Lemma flush_frames_context useBeacon :
  frames context_view (flush env useBeacon).
Proof. frames_walk. Qed.

Lemma after_push_frames_context : frames context_view (after_push env).
Proof. frames_walk. Qed.

Lemma pushEvent_frames_context type payload :
  frames context_view (pushEvent env type payload).
Proof. frames_walk. Qed.

(** The heartbeat timer is no traffic, and is not the flush timer. *)
Lemma startHeartbeat_frames_traffic : frames traffic_view startHeartbeat.
Proof. frames_walk. Qed.

Lemma startHeartbeat_frames_timer : frames timer_view startHeartbeat.
Proof. frames_walk. Qed.

Lemma startHeartbeat_frames_context : frames context_view startHeartbeat.
Proof. frames_walk. Qed.

Lemma startHeartbeat_frames_limiter : frames limiter_view startHeartbeat.
Proof. frames_walk. Qed.

End Frames.

(* ================================================================== *)
(** ** Rate limiting within a window and across windows *)
(* ================================================================== *)

Section RateLimit.

Variable env : Env.

Lemma limiter_pass_traffic type w :
  traffic_view (limiter_pass env type w) = traffic_view w.
Proof.
  unfold limiter_pass.
  destruct (MINUTE_MS <=? _); destruct (capped_of type); reflexivity.
Qed.

Lemma limiter_pass_timer type w :
  timer_view (limiter_pass env type w) = timer_view w.
Proof.
  unfold limiter_pass.
  destruct (MINUTE_MS <=? _); destruct (capped_of type); reflexivity.
Qed.

Lemma limiter_pass_context type w :
  context_view (limiter_pass env type w) = context_view w.
Proof.
  unfold limiter_pass.
  destruct (MINUTE_MS <=? _); destruct (capped_of type); reflexivity.
Qed.

Lemma limiter_pass_reads type w :
  reads (br (limiter_pass env type w)) = S (reads (br w)).
Proof.
  unfold limiter_pass.
  destruct (MINUTE_MS <=? _); destruct (capped_of type); reflexivity.
Qed.

(** What a push leaves in the limiter is what lines 57-64 left there. *)
Lemma pushEvent_limiter_view type payload w :
  limiter_view (world_of (pushEvent env type payload w))
  = limiter_view (limiter_pass env type w).
Proof.
  rewrite pushEvent_eq.
  destruct (match capped_of type with Some _ => _ | None => _ end);
    [reflexivity|].
  rewrite (frames_eq limiter_view _ _ (after_push_frames_limiter env)).
  reflexivity.
Qed.

Lemma limiter_pass_open c type w :
  capped_of type = Some c ->
  clock env (reads (br w)) - minuteWindowStart (st w) < MINUTE_MS ->
  limiter_view (limiter_pass env type w)
  = (minuteWindowStart (st w), bump c (counters (st w))).
Proof.
  intros Hc Hlt. unfold limiter_pass. rewrite Hc.
  destruct (Z.leb_spec MINUTE_MS
              (clock env (reads (br w)) - minuteWindowStart (st w)));
    [lia | reflexivity].
Qed.

Lemma limiter_pass_expired type w :
  MINUTE_MS <= clock env (reads (br w)) - minuteWindowStart (st w) ->
  limiter_view (limiter_pass env type w)
  = (clock env (reads (br w)),
     match capped_of type with
     | Some c => bump c zero_counters
     | None => zero_counters
     end).
Proof.
  intro Hle. unfold limiter_pass.
  destruct (Z.leb_spec MINUTE_MS
              (clock env (reads (br w)) - minuteWindowStart (st w)));
    [destruct (capped_of type); reflexivity | lia].
Qed.

(** The clock is only ever read forwards. *)
Lemma pushEvent_reads type payload n :
  maintains (fun w => (n <= reads (br w))%nat) (pushEvent env type payload).
Proof. maintains_walk ltac:(cbn in *; lia). Qed.

Lemma counters_at_test_open w :
  clock env (reads (br w)) - minuteWindowStart (st w) < MINUTE_MS ->
  counters_at_test env w = counters (st w).
Proof.
  intro Hlt. unfold counters_at_test.
  destruct (Z.leb_spec MINUTE_MS
              (clock env (reads (br w)) - minuteWindowStart (st w)));
    [lia | reflexivity].
Qed.

Lemma counters_at_test_expired w :
  MINUTE_MS <= clock env (reads (br w)) - minuteWindowStart (st w) ->
  counters_at_test env w = zero_counters.
Proof.
  intro Hle. unfold counters_at_test.
  destruct (Z.leb_spec MINUTE_MS
              (clock env (reads (br w)) - minuteWindowStart (st w)));
    [reflexivity | lia].
Qed.

Lemma count_of_bump_other c c' cs :
  c <> c' -> count_of c' (bump c cs) = count_of c' cs.
Proof. destruct c, c'; intro H; try reflexivity; contradiction. Qed.

Lemma limiter_pass_open_any type w :
  clock env (reads (br w)) - minuteWindowStart (st w) < MINUTE_MS ->
  limiter_view (limiter_pass env type w)
  = (minuteWindowStart (st w),
     match capped_of type with
     | Some c => bump c (counters (st w))
     | None => counters (st w)
     end).
Proof.
  intro Hlt. unfold limiter_pass.
  destruct (Z.leb_spec MINUTE_MS
              (clock env (reads (br w)) - minuteWindowStart (st w)));
    [lia | destruct (capped_of type); reflexivity].
Qed.

(** The test [type === "<c>"] of lines 60-64 holds for the type [c] names
    and for no other. *)
Lemma is_str_capped c type :
  is_str (cap_name c) type = true <-> capped_of type = Some c.
Proof.
  unfold capped_of, is_str.
  destruct type as [[ | | b | n | s] | fs | items];
    try (split; discriminate).
  destruct (String.eqb_spec s "copy") as [->|H1];
    [destruct c; split; (reflexivity || discriminate)|].
  destruct (String.eqb_spec s "paste") as [->|H2];
    [destruct c; split; (reflexivity || discriminate)|].
  destruct (String.eqb_spec s "cut") as [->|H3];
    [destruct c; split; (reflexivity || discriminate)|].
  destruct (String.eqb_spec s "tab_hidden") as [->|H4];
    [destruct c; split; (reflexivity || discriminate)|].
  destruct (String.eqb_spec s "blur") as [->|H5];
    [destruct c; split; (reflexivity || discriminate)|].
  split; [|discriminate].
  destruct c; cbn [cap_name]; intro E; apply String.eqb_eq in E; contradiction.
Qed.

(** A push reads the clock at least once. *)
Lemma after_push_reads n :
  maintains (fun w => (n <= reads (br w))%nat) (after_push env).
Proof. maintains_walk ltac:(cbn in *; lia). Qed.

Lemma pushEvent_reads_on type payload w :
  (S (reads (br w)) <= reads (br (world_of (pushEvent env type payload w))))%nat.
Proof.
  rewrite pushEvent_eq.
  destruct (match capped_of type with Some _ => _ | None => _ end).
  - cbn [world_of]. rewrite limiter_pass_reads. lia.
  - apply after_push_reads. cbn. rewrite limiter_pass_reads. lia.
Qed.

Section Counted.

Variables (c : capped) (start : Z) (from : nat).

(** One push, of any type: inside the window it moves the counter of [c]
    by one if it is of the type [c] names, accepted or not, and not at all
    otherwise. *)
Lemma pushEvent_counted type payload total w :
  counted env c start from total w ->
  counted env c start from
          (total + if is_str (cap_name c) type then 1 else 0)
          (world_of (pushEvent env type payload w)).
Proof.
  intros [Hfrom Hin].
  pose proof (pushEvent_reads_on type payload w) as Hreads.
  pose proof (pushEvent_limiter_view type payload w) as Hview.
  split; [lia|]. intro Hw.
  destruct Hin as [Hstart Hcount]; [intros n Hn; apply Hw; lia|].
  assert (Hlt : clock env (reads (br w)) - minuteWindowStart (st w)
                < MINUTE_MS) by (rewrite Hstart; apply Hw; lia).
  rewrite (limiter_pass_open_any type w Hlt) in Hview.
  unfold limiter_view in Hview. injection Hview as Hstart' Hcount'.
  split; [congruence|]. rewrite Hcount'.
  destruct (is_str (cap_name c) type) eqn:Hc.
  - apply is_str_capped in Hc. rewrite Hc, count_of_bump. lia.
  - destruct (capped_of type) as [c'|] eqn:Hc'; [|lia].
    rewrite count_of_bump_other; [lia|].
    intros ->. apply is_str_capped in Hc'. congruence.
Qed.

Lemma pushEvent_counted_other type payload total :
  is_str (cap_name c) type = false ->
  maintains (counted env c start from total) (pushEvent env type payload).
Proof.
  intros Hc w H. pose proof (pushEvent_counted type payload total w H) as H'.
  rewrite Hc, Z.add_0_r in H'. exact H'.
Qed.

Ltac counted_leaf :=
  lazymatch goal with
  | H : counted _ _ _ _ _ _ |- counted _ _ _ _ _ _ =>
      let Hfrom := fresh "Hfrom" in
      let Hin := fresh "Hin" in
      let Hw := fresh "Hw" in
      destruct H as [Hfrom Hin]; split;
      [ cbn in *; lia
      | intro Hw; cbn in *; apply Hin; intros ? ?; apply Hw; lia ]
  end.

(** One step of the page. *)
Lemma perform_counted a total w :
  counted env c start from total w ->
  counted env c start from (total + if submits c a then 1 else 0)
          (world_of (perform env a w)).
Proof.
  destruct a as [arg|type payload| |id|id|n|n| ];
    [ | exact (pushEvent_counted type payload total w) | .. ];
    cbn [submits]; rewrite Z.add_0_r;
    lazymatch goal with
    | |- _ -> counted _ _ _ _ _ (world_of (perform _ ?a _)) =>
        revert w;
        change (maintains (counted env c start from total) (perform env a))
    end;
    maintains_walk_with
      ltac:(idtac; lazymatch goal with
            | |- maintains _ (pushEvent _ _ _) =>
                apply pushEvent_counted_other; destruct c; reflexivity
            end)
      ltac:(idtac; counted_leaf).
Qed.

(** A run: the counter of [c] goes up by the number of submissions of
    its type, whatever else happens in between. *)
Lemma run_counted acts :
  forall total w,
    counted env c start from total w ->
    counted env c start from (total + Z.of_nat (submissions c acts))
            (run env acts w).
Proof.
  induction acts as [|a rest IH]; intros total w H.
  - cbn. rewrite Z.add_0_r. exact H.
  - cbn [run]. apply (perform_counted a) in H. apply IH in H.
    replace (total + Z.of_nat (submissions c (a :: rest)))
      with (total + (if submits c a then 1 else 0)
            + Z.of_nat (submissions c rest)); [exact H|].
    unfold submissions. cbn [filter].
    destruct (submits c a); cbn [List.length]; lia.
Qed.

End Counted.

(** Where a run starts, its limiter is counted trivially. *)
Lemma counted_here c w :
  counted env c (minuteWindowStart (st w)) (reads (br w))
          (count_of c (counters (st w))) w.
Proof. split; [lia | intros _; split; reflexivity]. Qed.

(** In a fresh window, the counter a submission is tested against is the
    number of submissions of its type made in the window before it. *)
Lemma counted_in_window c acts w :
  fresh_window env c acts w ->
  count_of c (counters_at_test env (run env acts w))
  = Z.of_nat (submissions c acts).
Proof.
  intros [[Hzero Hopen] | [Hexpired Hnear]].
  - destruct (run_counted c _ _ acts _ w (counted_here c w)) as [Hfrom Hin].
    destruct Hin as [Hstart Hcount]; [intros n Hn; apply Hopen; lia|].
    rewrite counters_at_test_open; [rewrite Hcount, Hzero; lia|].
    rewrite Hstart. apply Hopen. lia.
  - destruct acts as [|a rest].
    + cbn [run]. rewrite counters_at_test_expired by exact Hexpired.
      apply count_of_zero.
    + destruct a as [arg|type payload| |id|id|n|n| ]; try contradiction.
      cbn [run perform] in *. unfold log in *.
      set (w1 := world_of (pushEvent env type payload w)) in *.
      assert (Hview : limiter_view w1
                      = (clock env (reads (br w)),
                         match capped_of type with
                         | Some c' => bump c' zero_counters
                         | None => zero_counters
                         end)).
      { unfold w1. rewrite pushEvent_limiter_view.
        apply limiter_pass_expired, Hexpired. }
      unfold limiter_view in Hview. injection Hview as Hstart1 Hcount1.
      assert (Hreads1 : (S (reads (br w)) <= reads (br w1))%nat)
        by apply pushEvent_reads_on.
      pose proof (run_counted c _ _ rest _ w1 (counted_here c w1))
        as [Hfrom Hin].
      rewrite Hstart1 in Hin.
      destruct Hin as [Hstart Hcount]; [intros n Hn; apply Hnear; lia|].
      rewrite counters_at_test_open;
        [|rewrite Hstart; apply Hnear; lia].
      rewrite Hcount, Hcount1. unfold submissions. cbn [filter submits].
      destruct (is_str (cap_name c) type) eqn:Hc.
      * apply is_str_capped in Hc. rewrite Hc, count_of_bump, count_of_zero.
        cbn [List.length]. lia.
      * destruct (capped_of type) as [c'|] eqn:Hc';
          [|rewrite count_of_zero; lia].
        rewrite count_of_bump_other, count_of_zero; [lia|].
        intros ->. apply is_str_capped in Hc'. congruence.
Qed.

(** C2.  Within one 60-second window, followed from its first state
    through any run of steps (submissions of any type, context changes,
    heartbeats, flushes, timers, responses) whose clock reads fall inside
    it: a submission of a capped type that has at most N predecessors of
    its type in the window (N the type's threshold: copy 40, paste 60,
    cut 40, tab_hidden 30, blur 60) is accepted, so submissions 1 to N+1
    are enqueued; one with more than N predecessors, so the N+2nd and
    every later one, is dropped, leaving the queue, the requests, the
    beacons and the flush timer as they were.  A type outside the five is
    accepted in every state. *)
Theorem rate_cap_boundary c acts payload w :
  fresh_window env c acts w ->
  let type := VStr (cap_name c) in
  let w' := run env acts w in
  let earlier := Z.of_nat (submissions c acts) in
  (earlier <= cap_limit c -> accepted env type payload w')
  /\ (cap_limit c < earlier ->
        dropped env type payload w'
        /\ traffic_view (limiter_pass env type w') = traffic_view w'
        /\ timer_view (limiter_pass env type w') = timer_view w')
  /\ (forall other payload' w'',
        capped_of other = None -> accepted env other payload' w'').
Proof.
  intros Hfresh type w' earlier.
  pose proof (counted_in_window c acts w Hfresh) as Hcount.
  fold w' in Hcount. fold earlier in Hcount.
  split; [|split].
  - intro Hle. apply (pushEvent_under_cap env c); [apply capped_of_name|].
    rewrite Hcount. exact Hle.
  - intro Hlt. split; [|split].
    + apply (pushEvent_over_cap env c); [apply capped_of_name|].
      rewrite Hcount. exact Hlt.
    + apply limiter_pass_traffic.
    + apply limiter_pass_timer.
  - intros other payload' w'' Hnone. apply pushEvent_uncapped, Hnone.
Qed.

End RateLimit.

Section WindowReset.

Variable env : Env.

Lemma cap_limit_nonneg c : 0 <= cap_limit c.
Proof. destruct c; cbn; lia. Qed.

(** C3.  A push made when the clock is 60000 ms or more past the window
    start tests the cap against counters that are all zero, whatever they
    were: it is accepted, also for a type that was over its cap; the window
    then starts at the time read, and the counters the push leaves are the
    cleared ones with the pushed type, if capped, at one. *)
Theorem window_reset type payload w :
  MINUTE_MS <= clock env (reads (br w)) - minuteWindowStart (st w) ->
  counters_at_test env w = zero_counters
  /\ accepted env type payload w
  /\ limiter_view (world_of (pushEvent env type payload w))
     = (clock env (reads (br w)),
        match capped_of type with
        | Some c => bump c zero_counters
        | None => zero_counters
        end).
Proof.
  intro Hle.
  assert (Hzero : counters_at_test env w = zero_counters).
  { unfold counters_at_test.
    destruct (Z.leb_spec MINUTE_MS
                (clock env (reads (br w)) - minuteWindowStart (st w)));
      [reflexivity | lia]. }
  split; [exact Hzero | split].
  - destruct (capped_of type) as [c|] eqn:Hc.
    + apply (pushEvent_under_cap env c); [exact Hc|].
      rewrite Hzero, count_of_zero. apply cap_limit_nonneg.
    + apply pushEvent_uncapped, Hc.
  - rewrite pushEvent_limiter_view. apply limiter_pass_expired, Hle.
Qed.

End WindowReset.

(* ================================================================== *)
(** ** Heartbeat and task context *)
(* ================================================================== *)

Section Context.

Variable env : Env.

(** [Math.max(0, Math.round(d / 1000))]: never negative, zero below half a
    second, and otherwise within half a second of [d]. *)
Lemma elapsed_seconds_rounds now since :
  let s := elapsed_seconds now since in
  0 <= s
  /\ (now - since < 500 -> s = 0)
  /\ (500 <= now - since ->
      1000 * s - 500 <= now - since < 1000 * s + 500).
Proof.
  unfold elapsed_seconds, round_div_1000. cbv zeta.
  pose proof (Z.div_mod (now - since + 500) 1000 ltac:(lia)) as Hdm.
  pose proof (Z.mod_pos_bound (now - since + 500) 1000 ltac:(lia)) as Hmod.
  repeat split; lia.
Qed.

Lemma strict_eq_true a b : strict_eq a b = true -> a = b.
Proof.
  destruct a, b; cbn; intro H; try discriminate; try reflexivity.
  - apply Bool.eqb_prop in H. now subst.
  - apply Z.eqb_eq in H. now subst.
  - apply String.eqb_eq in H. now subst.
Qed.

(** With a task active, a tick is one clock read and one push. *)
Lemma heartbeat_active w :
  truthy_prim (currentTaskId (st w)) = true ->
  heartbeat env w
  = pushEvent env (VStr "heartbeat")
      (VObj [ ("seconds_on_task",
                VNum (elapsed_seconds (clock env (reads (br w)))
                                      (lastTaskOpenedAt (st w)))) ])
      (on_br (set_reads (S (reads (br w)))) w).
Proof.
  intro H. unfold heartbeat, bind, get. rewrite H. reflexivity.
Qed.

(** C8.  A heartbeat tick with no task active (the task id is falsy)
    changes nothing.  With a task active it reads the clock and pushes one
    [heartbeat] event, which is always accepted, whose payload is
    [{seconds_on_task: s}] with [s] the time since the task was opened,
    rounded to whole seconds and 0 when that time is negative. *)
Theorem heartbeat_tick w :
  (truthy_prim (currentTaskId (st w)) = false -> heartbeat env w = Ok tt w)
  /\ (truthy_prim (currentTaskId (st w)) = true ->
      let now := clock env (reads (br w)) in
      let s := elapsed_seconds now (lastTaskOpenedAt (st w)) in
      let payload := VObj [ ("seconds_on_task", VNum s) ] in
      let w1 := on_br (set_reads (S (reads (br w)))) w in
      heartbeat env w = pushEvent env (VStr "heartbeat") payload w1
      /\ accepted env (VStr "heartbeat") payload w1
      /\ prop "payload" (event_in env (VStr "heartbeat") payload
                           (limiter_pass env (VStr "heartbeat") w1))
         = payload
      /\ 0 <= s
      /\ (now - lastTaskOpenedAt (st w) < 500 -> s = 0)
      /\ (500 <= now - lastTaskOpenedAt (st w) ->
          1000 * s - 500 <= now - lastTaskOpenedAt (st w) < 1000 * s + 500)).
Proof.
  split.
  - intro H. unfold heartbeat, bind, get. rewrite H. reflexivity.
  - intros H now s payload w1.
    split; [|split; [|split]].
    + apply heartbeat_active, H.
    + apply pushEvent_uncapped. reflexivity.
    + reflexivity.
    + apply elapsed_seconds_rounds.
Qed.

Lemma setContext_no_switch sessionId taskId w :
  defined taskId = true ->
  truthy_prim (currentTaskId (st w))
    && negb (strict_eq (currentTaskId (st w)) taskId) = false ->
  exists w',
    setContext env (ArgObject sessionId taskId) w = Ok tt w'
    /\ traffic_view w' = traffic_view w
    /\ timer_view w' = timer_view w
    /\ limiter_view w' = limiter_view w
    /\ currentTaskId (st w') = taskId
    /\ lastTaskOpenedAt (st w') = clock env (reads (br w))
    /\ reads (br w') = S (reads (br w)).
Proof.
  intros Hdef Hcond.
  unfold setContext, destructure, startHeartbeat, stopHeartbeat, bind, ret,
    get, modify, Date_now, setInterval, clearInterval.
  cbn [fst snd]. rewrite Hdef.
  destruct (defined sessionId); cbn; rewrite Hcond; cbn;
    destruct (heartbeatTimer (st w)); cbn;
    (eexists; split; [reflexivity | repeat split]).
Qed.

(** C10.  [setContext] with a task id equal to the current one pushes no
    event and leaves the queue, the requests, the beacons and the flush
    timer as they were, yet stores the time it reads as the task-opened
    timestamp; the next heartbeat measures from that time. *)
Theorem setContext_same_task sessionId taskId w :
  defined taskId = true ->
  strict_eq (currentTaskId (st w)) taskId = true ->
  exists w',
    setContext env (ArgObject sessionId taskId) w = Ok tt w'
    /\ traffic_view w' = traffic_view w
    /\ timer_view w' = timer_view w
    /\ currentTaskId (st w') = currentTaskId (st w)
    /\ lastTaskOpenedAt (st w') = clock env (reads (br w))
    /\ (truthy_prim taskId = true ->
        heartbeat env w'
        = pushEvent env (VStr "heartbeat")
            (VObj [ ("seconds_on_task",
                      VNum (elapsed_seconds (clock env (reads (br w')))
                                            (clock env (reads (br w))))) ])
            (on_br (set_reads (S (reads (br w')))) w')).
Proof.
  intros Hdef Heq.
  destruct (setContext_no_switch sessionId taskId w Hdef) as
    (w' & Hrun & Htraffic & Htimer & _ & Htask & Hopened & _).
  { rewrite Heq. apply andb_false_r. }
  exists w'. repeat split; try assumption.
  - rewrite Htask. symmetry. apply strict_eq_true, Heq.
  - intro Htruthy.
    rewrite <- Htask in Htruthy.
    rewrite (heartbeat_active w' Htruthy), Hopened. reflexivity.
Qed.

(** C7, as the code has it.  [setContext] with a task id that differs from
    the current one pushes a [task_switch] event only when a task was set
    (the current id is truthy).  Then exactly one push is made, before the
    task id is stored: it is always accepted, the event carries the
    previous id as its task, and its payload holds the previous id, the new
    id and the time since the previous task was opened, rounded to whole
    seconds and never negative; the rest of the call leaves the queue, the
    requests, the beacons and the flush timer as that push left them.
    When no task was set, no event is pushed: queue, requests, beacons and
    flush timer are as before the call.  In both cases the new id and the
    time read last are stored. *)
Theorem setContext_task_switch sessionId taskId w :
  defined taskId = true ->
  strict_eq (currentTaskId (st w)) taskId = false ->
  let prev := currentTaskId (st w) in
  (truthy_prim prev = true ->
     let spent := elapsed_seconds (clock env (reads (br w)))
                                  (lastTaskOpenedAt (st w)) in
     let payload := task_switch_payload prev taskId spent in
     let w1 := on_br (set_reads (S (reads (br w))))
                     (with_session sessionId w) in
     accepted env (VStr "task_switch") payload w1
     /\ prop "task_id" (event_in env (VStr "task_switch") payload
                          (limiter_pass env (VStr "task_switch") w1))
        = VPrim prev
     /\ prop "payload" (event_in env (VStr "task_switch") payload
                          (limiter_pass env (VStr "task_switch") w1))
        = payload
     /\ 0 <= spent
     /\ exists w2 w3,
          pushEvent env (VStr "task_switch") payload w1 = Ok tt w2
          /\ setContext env (ArgObject sessionId taskId) w = Ok tt w3
          /\ traffic_view w3 = traffic_view w2
          /\ timer_view w3 = timer_view w2
          /\ currentTaskId (st w3) = taskId
          /\ lastTaskOpenedAt (st w3) = clock env (reads (br w2)))
  /\ (truthy_prim prev = false ->
      exists w3,
        setContext env (ArgObject sessionId taskId) w = Ok tt w3
        /\ traffic_view w3 = traffic_view w
        /\ timer_view w3 = timer_view w
        /\ currentTaskId (st w3) = taskId
        /\ lastTaskOpenedAt (st w3) = clock env (reads (br w))).
Proof.
  intros Hdef Hneq prev. split.
  - intros Htruthy spent payload w1.
    split; [apply pushEvent_uncapped; reflexivity|].
    split.
    { pose proof (limiter_pass_context env (VStr "task_switch") w1) as Hctx.
      unfold context_view in Hctx. injection Hctx as Htask _ _.
      change (VPrim (currentTaskId
                       (st (limiter_pass env (VStr "task_switch") w1)))
              = VPrim prev).
      rewrite Htask. unfold w1, with_session.
      destruct (defined sessionId); reflexivity. }
    split; [reflexivity|].
    split; [apply elapsed_seconds_rounds|].
    pose proof (safe_unit _ w1
                  (safe_pushEvent env (VStr "task_switch") payload)) as Hpush.
    set (w2 := world_of (pushEvent env (VStr "task_switch") payload w1)) in *.
    exists w2.
    clearbody w2.
    unfold setContext, destructure, ret. unfold bind at 1. cbn [fst snd].
    rewrite Hdef. unfold with_session in w1.
    unfold prev in Htruthy.
    destruct (defined sessionId) eqn:Hs;
      unfold bind at 1; [unfold modify | ];
      unfold bind at 1; unfold bind at 1, get;
      cbn [st on_st currentTaskId set_currentSessionId lastTaskOpenedAt];
      rewrite Htruthy, Hneq; cbn [negb andb];
      unfold bind at 1; unfold bind at 1; unfold Date_now at 1;
      cbn [br on_st reads];
      fold spent; fold prev; fold payload; fold w1;
      rewrite Hpush;
      unfold startHeartbeat, stopHeartbeat;
      unfold bind, Date_now, get, modify, ret, setInterval, clearInterval;
      cbn; destruct (heartbeatTimer (st w2)); cbn;
      (eexists; split; [reflexivity | split; [reflexivity | repeat split]]).
  - intro Hfalsy.
    destruct (setContext_no_switch sessionId taskId w Hdef) as
      (w' & Hrun & Htraffic & Htimer & _ & Htask & Hopened & _).
    { fold prev. rewrite Hfalsy. reflexivity. }
    exists w'. repeat split; assumption.
Qed.

End Context.

(* ================================================================== *)
(** ** Flushing: the batch, the payload, and failure *)
(* ================================================================== *)

Section Flush.

Variable env : Env.

Lemma approxByteSize_eq obj w :
  approxByteSize env obj w = Ok (reported_size env obj) w.
Proof.
  unfold approxByteSize, try_catch, bind, stringify, reported_size.
  destruct (JSON_stringify env obj); reflexivity.
Qed.

Lemma build_payload_eq batch w :
  build_payload env batch w = Ok (payload_for env batch) w.
Proof.
  unfold build_payload, bind, payload_for. rewrite approxByteSize_eq.
  destruct (MAX_PAYLOAD_BYTES <? _); reflexivity.
Qed.

(** [flush] on a queue that is not empty, up to its try statement. *)
Lemma flush_body_eq useBeacon w :
  queue (st w) <> [] ->
  let batch := firstn MAX_BATCH_SIZE (queue (st w)) in
  flush_body env useBeacon w
  = try_catch (deliver env useBeacon (payload_for env batch) batch)
              (fun _ => flush_catch batch)
              (at_delivery env w).
Proof.
  intros Hne batch. subst batch. unfold flush_body, at_delivery.
  unfold bind at 1, get. cbv beta iota.
  destruct (queue (st w)) as [|e q] eqn:Hq; [contradiction|].
  unfold bind at 1, modify. unfold bind at 1. rewrite build_payload_eq.
  unfold bind, Date_now, modify.
  unfold on_st, on_br. cbn [st br]. rewrite Hq. reflexivity.
Qed.

Lemma flush_body_empty useBeacon w :
  queue (st w) = [] -> flush_body env useBeacon w = Ok tt w.
Proof.
  intro Hq. unfold flush_body, bind, get. rewrite Hq. reflexivity.
Qed.

(** A delivery that throws has touched nothing. *)
Lemma deliver_threw useBeacon payload batch w e w' :
  deliver env useBeacon payload batch w = Threw e w' -> w' = w.
Proof.
  unfold deliver, bind, stringify, fetch, throw, ret, modify.
  destruct useBeacon; destruct (navigator_sendBeacon env) as [send|];
    destruct (JSON_stringify env payload) as [body|];
    try (intro H; injection H as _ <-; reflexivity);
    try (destruct (send body));
    try (destruct (fetch_throws env body));
    intro H; try discriminate; injection H as _ <-; reflexivity.
Qed.

Lemma drop_timer_all id ts :
  (forall t, In t ts -> fst t = id) -> drop_timer id ts = [].
Proof.
  intro H. induction ts as [|t ts IH]; [reflexivity|].
  cbn. rewrite (H t (or_introl eq_refl)), Pos.eqb_refl. cbn.
  apply IH. intros t' Hin. apply H. right. exact Hin.
Qed.

(** The catch clause: the batch goes back in front of what the queue holds
    now, the timer [flushTimer] names is cleared, and a timer is set at the
    backoff delay. *)
Lemma flush_catch_eq batch w :
  exists w',
    flush_catch batch w = Ok tt w'
    /\ queue (st w') = batch ++ queue (st w)
    /\ timeouts (br w')
       = match flushTimer (st w) with
         | Some id => drop_timer id (timeouts (br w))
         | None => timeouts (br w)
         end ++ [(next_timer (br w), BACKOFF_MS)]
    /\ flushTimer (st w') = Some (next_timer (br w))
    /\ inflight (br w') = inflight (br w)
    /\ beacons (br w') = beacons (br w).
Proof.
  unfold flush_catch, bind, modify, get, clearTimeout, setTimeout, ret.
  cbn. destruct (flushTimer (st w)); cbn;
    (eexists; split; [reflexivity | repeat split]).
Qed.

Lemma flush_catch_backoff batch w :
  timers_ok w ->
  exists w',
    flush_catch batch w = Ok tt w'
    /\ queue (st w') = batch ++ queue (st w)
    /\ timeouts (br w') = [(next_timer (br w), BACKOFF_MS)]
    /\ flushTimer (st w') = Some (next_timer (br w))
    /\ inflight (br w') = inflight (br w).
Proof.
  intro Hok. destruct (flush_catch_eq batch w)
    as (w' & Hrun & Hq & Hts & Hft & Hin & _).
  exists w'. repeat split; try assumption.
  rewrite Hts. unfold timers_ok in Hok.
  destruct (flushTimer (st w)) as [id|].
  - rewrite (drop_timer_all id _ Hok). reflexivity.
  - rewrite Hok. reflexivity.
Qed.

Lemma firstn_nonempty {T} (n : nat) (l : list T) :
  l <> [] -> firstn (S n) l <> [].
Proof. destruct l; [contradiction | discriminate]. Qed.

Lemma trim_keeps e :
  prop "ts" (trim e) = prop "ts" e
  /\ prop "type" (trim e) = prop "type" e
  /\ prop "task_id" (trim e) = prop "task_id" e
  /\ prop "session_id" (trim e) = prop "session_id" e
  /\ prop "page" (trim e) = prop "page" e
  /\ prop "payload" (trim e) = trimmed_marker.
Proof. repeat split. Qed.

(** A flush whose request [fetch] accepts: the function suspends with the
    request awaited and the rest of the queue in place. *)
Lemma flush_awaits w body :
  queue (st w) <> [] ->
  let batch := firstn MAX_BATCH_SIZE (queue (st w)) in
  JSON_stringify env (payload_for env batch) = Some body ->
  fetch_throws env body = false ->
  flush env false w
  = Ok tt (on_br (fun b => set_inflight
                             (inflight b ++ [mkRequest body batch]) b)
                 (at_delivery env w)).
Proof.
  intros Hne batch Hbody Hfetch.
  unfold flush, async, try_catch at 1.
  rewrite (flush_body_eq false w Hne). fold batch.
  unfold try_catch, deliver, bind, stringify, fetch.
  rewrite Hbody. unfold ret. rewrite Hfetch. reflexivity.
Qed.

(** C4.  A flush of a queue that is not empty takes its first 30 events, or
    all of them when there are fewer, as the batch, and leaves the rest.
    What it hands to the transport is the batch as it is when the size
    reported for it is at most 30000 bytes, and otherwise the batch with
    every event replaced by its trimmed form: same ts, type, task_id,
    session_id and page, and the payload replaced by [{note: "trimmed"}],
    whatever it was.  When [fetch] accepts the request, the request carries
    the serialization of that payload and the queue holds the rest. *)
Theorem flush_batch_and_trim useBeacon w :
  queue (st w) <> [] ->
  let batch := firstn MAX_BATCH_SIZE (queue (st w)) in
  let payload := payload_for env batch in
  (List.length batch <= 30)%nat
  /\ batch <> []
  /\ queue (st w) = batch ++ queue (st (at_delivery env w))
  /\ flush_body env useBeacon w
     = try_catch (deliver env useBeacon payload batch)
                 (fun _ => flush_catch batch)
                 (at_delivery env w)
  /\ (reported_size env (payload_of batch) <= MAX_PAYLOAD_BYTES ->
      payload = payload_of batch)
  /\ (MAX_PAYLOAD_BYTES < reported_size env (payload_of batch) ->
      payload = payload_of (map trim batch)
      /\ forall e, In e batch ->
           In (trim e) (delivered_events payload)
           /\ prop "ts" (trim e) = prop "ts" e
           /\ prop "type" (trim e) = prop "type" e
           /\ prop "task_id" (trim e) = prop "task_id" e
           /\ prop "session_id" (trim e) = prop "session_id" e
           /\ prop "page" (trim e) = prop "page" e
           /\ prop "payload" (trim e) = trimmed_marker)
  /\ (forall body,
        JSON_stringify env payload = Some body ->
        fetch_throws env body = false ->
        flush env false w
        = Ok tt (on_br (fun b => set_inflight
                                   (inflight b ++ [mkRequest body batch]) b)
                       (at_delivery env w))).
Proof.
  intros Hne batch payload.
  split; [apply firstn_le_length|].
  split; [apply firstn_nonempty, Hne|].
  split; [symmetry; apply (firstn_skipn MAX_BATCH_SIZE)|].
  split; [apply flush_body_eq, Hne|].
  split; [|split].
  - intro Hle. unfold payload, payload_for.
    destruct (Z.ltb_spec MAX_PAYLOAD_BYTES
                (reported_size env (payload_of batch))); [lia | reflexivity].
  - intro Hlt.
    assert (Hp : payload = payload_of (map trim batch)).
    { unfold payload, payload_for.
      destruct (Z.ltb_spec MAX_PAYLOAD_BYTES
                  (reported_size env (payload_of batch)));
        [reflexivity | lia]. }
    split; [exact Hp|].
    intros e Hin. split; [|apply trim_keeps].
    rewrite Hp. cbn. apply in_map, Hin.
  - intros body Hbody Hfetch. apply (flush_awaits w body Hne Hbody Hfetch).
Qed.

End Flush.

(* ================================================================== *)
(** ** Invariants of every run *)
(* ================================================================== *)

Section Invariants.

Variable env : Env.

Ltac timers_leaf := unfold timers_ok in *; cbn in *; assumption.

Lemma schedule_flush_timers_ok : maintains timers_ok schedule_flush.
Proof.
  intros w H. unfold schedule_flush, bind, get, setTimeout, modify.
  unfold timers_ok in *. cbv beta iota.
  destruct (flushTimer (st w)) as [id|] eqn:Hft; cbn.
  - rewrite Hft. exact H.
  - rewrite H. intros t [<-|[]]. reflexivity.
Qed.

Lemma flush_catch_timers_ok batch : maintains timers_ok (flush_catch batch).
Proof.
  intros w H. destruct (flush_catch_backoff batch w H)
    as (w' & Hrun & _ & Hts & Hft & _).
  rewrite Hrun. cbn. unfold timers_ok. rewrite Hft, Hts.
  intros t [<-|[]]. reflexivity.
Qed.

Lemma drop_timer_timers_ok id :
  maintains timers_ok
    (modify (on_br (fun b => set_timeouts (drop_timer id (timeouts b)) b))).
Proof.
  intros w H. unfold timers_ok in *. cbn.
  destruct (flushTimer (st w)) as [id'|].
  - intros t Hin. apply H. unfold drop_timer in Hin.
    apply filter_In in Hin. apply Hin.
  - rewrite H. reflexivity.
Qed.

Ltac timers_walk :=
  maintains_walk ltac:(first [ apply schedule_flush_timers_ok
                             | apply flush_catch_timers_ok
                             | apply drop_timer_timers_ok
                             | timers_leaf ]).

Lemma flush_timers_ok useBeacon : maintains timers_ok (flush env useBeacon).
Proof. timers_walk. Qed.

Lemma pushEvent_timers_ok type payload :
  maintains timers_ok (pushEvent env type payload).
Proof. timers_walk. Qed.

(** Whatever happens, a pending flush timeout is the one [flushTimer]
    names. *)
Lemma perform_timers_ok a : maintains timers_ok (perform env a).
Proof. destruct a; timers_walk. Qed.

Lemma run_maintains (P : World -> Prop) :
  (forall a, maintains P (perform env a)) ->
  forall acts w, P w -> P (run env acts w).
Proof.
  intros Hstep acts. induction acts as [|a rest IH]; intros w Hw.
  - exact Hw.
  - cbn. apply IH, Hstep, Hw.
Qed.

Lemma timers_ok_run acts : timers_ok (run env acts (init env)).
Proof.
  apply run_maintains; [apply perform_timers_ok | reflexivity].
Qed.

Ltac events_leaf := unfold events_ok in *; cbn in *; assumption.

Lemma event_literal_is_event ts type task_id session_id payload page ua :
  is_event (event_literal ts type task_id session_id payload page ua).
Proof. unfold is_event. repeat eexists. Qed.

Lemma enqueue_events_ok type payload :
  maintains events_ok (enqueue env type payload).
Proof.
  intros w [Hq Hr]. rewrite enqueue_eq. cbn. split; [|exact Hr].
  cbn. apply Forall_app. split; [exact Hq|].
  constructor; [apply event_literal_is_event | constructor].
Qed.

Lemma flush_catch_events_ok batch :
  Forall is_event batch -> maintains events_ok (flush_catch batch).
Proof.
  intros Hb w [Hq Hr].
  destruct (flush_catch_eq batch w) as (w' & Hrun & Hq' & _ & _ & Hin & _).
  rewrite Hrun. cbn. unfold events_ok. rewrite Hq', Hin.
  split; [apply Forall_app; split; assumption | exact Hr].
Qed.

Lemma deliver_events_ok useBeacon payload batch :
  Forall is_event batch ->
  maintains events_ok (deliver env useBeacon payload batch).
Proof.
  intros Hb. unfold deliver, fetch.
  maintains_walk ltac:(first
    [ events_leaf
    | destruct H as [Hq Hr]; split; [exact Hq|]; cbn;
      apply Forall_app; split; [exact Hr|]; constructor;
      [exact Hb | constructor] ]).
Qed.

Lemma Forall_split_at {T} (P : T -> Prop) n l :
  Forall P l -> Forall P (firstn n l) /\ Forall P (skipn n l).
Proof.
  intro H. rewrite <- (firstn_skipn n l) in H.
  apply Forall_app in H. exact H.
Qed.

Lemma flush_body_events_ok useBeacon :
  maintains events_ok (flush_body env useBeacon).
Proof.
  intros w [Hq Hr].
  assert (Hcases : queue (st w) = [] \/ queue (st w) <> []).
  { destruct (queue (st w)); [left; reflexivity | right; discriminate]. }
  destruct Hcases as [Hempty|Hne].
  - rewrite (flush_body_empty env useBeacon w Hempty). split; assumption.
  - rewrite (flush_body_eq env useBeacon w Hne).
    destruct (Forall_split_at _ MAX_BATCH_SIZE _ Hq) as [Hb Hrest].
    apply maintains_try_catch.
    + apply deliver_events_ok, Hb.
    + intro. apply flush_catch_events_ok, Hb.
    + split; [exact Hrest | exact Hr].
Qed.

Lemma remove_nth_Forall {T} (P : T -> Prop) n l :
  Forall P l -> Forall P (remove_nth n l).
Proof.
  intro H. unfold remove_nth. apply Forall_app. split.
  - apply (Forall_split_at P n l H).
  - apply (Forall_split_at P (S n) l H).
Qed.

Lemma fetch_rejects_events_ok n : maintains events_ok (fetch_rejects n).
Proof.
  intros w [Hq Hr]. unfold fetch_rejects, bind at 1, get. cbv beta iota.
  destruct (nth_error (inflight (br w)) n) as [r|] eqn:Hn;
    [|split; assumption].
  assert (Hb : Forall is_event (req_batch r)).
  { apply (proj1 (Forall_forall _ _) Hr), (nth_error_In _ _ Hn). }
  apply maintains_bind.
  - apply maintains_modify. intros w0 [Hq0 Hr0]. split; [exact Hq0|].
    cbn. apply remove_nth_Forall, Hr0.
  - intros _. apply maintains_async, flush_catch_events_ok, Hb.
  - split; assumption.
Qed.

Lemma fetch_fulfils_events_ok n : maintains events_ok (fetch_fulfils n).
Proof.
  apply maintains_modify. intros w [Hq Hr]. split; [exact Hq|].
  cbn. apply remove_nth_Forall, Hr.
Qed.

Ltac events_walk :=
  maintains_walk ltac:(first [ apply enqueue_events_ok
                             | apply flush_body_events_ok
                             | apply fetch_rejects_events_ok
                             | apply fetch_fulfils_events_ok
                             | events_leaf ]).

(** Whatever happens, the queue and the batches of suspended flushes hold
    objects built by the literal of lines 66-74. *)
Lemma perform_events_ok a : maintains events_ok (perform env a).
Proof. destruct a; events_walk. Qed.

(** X4.  In every state a run can reach, the queue and the batch of every
    suspended flush hold only objects built by the literal of lines 66-74,
    with its seven properties. *)
Lemma events_ok_run acts : events_ok (run env acts (init env)).
Proof.
  apply run_maintains; [apply perform_events_ok|].
  split; constructor.
Qed.

Ltac held_leaf := unfold held in *; cbn in *; assumption.

Lemma flush_catch_holds e batch : maintains (held e) (flush_catch batch).
Proof.
  intros w [Hq|Hr];
    destruct (flush_catch_eq batch w) as (w' & Hrun & Hq' & _ & _ & Hin & _);
    rewrite Hrun; cbn; unfold held; rewrite Hq', Hin.
  - left. apply in_or_app. right. exact Hq.
  - right. exact Hr.
Qed.

(** A flush over [fetch] loses nothing: what it takes from the queue is in
    the awaited request, or back in the queue. *)
Lemma flush_body_holds e : maintains (held e) (flush_body env false).
Proof.
  intros w Hheld.
  assert (Hcases : queue (st w) = [] \/ queue (st w) <> []).
  { destruct (queue (st w)); [left; reflexivity | right; discriminate]. }
  destruct Hcases as [Hempty|Hne].
  { rewrite (flush_body_empty env false w Hempty). exact Hheld. }
  rewrite (flush_body_eq env false w Hne).
  set (batch := firstn MAX_BATCH_SIZE (queue (st w))).
  assert (Hsplit : In e batch \/ held e (at_delivery env w)).
  { destruct Hheld as [Hq|Hr]; [|right; right; exact Hr].
    rewrite <- (firstn_skipn MAX_BATCH_SIZE) in Hq.
    apply in_app_or in Hq. destruct Hq as [Hb|Hrest];
      [left; exact Hb | right; left; exact Hrest]. }
  assert (Hcatch : held e (world_of (flush_catch batch (at_delivery env w)))).
  { destruct (flush_catch_eq batch (at_delivery env w))
      as (w' & Hrun & Hq' & _ & _ & Hin & _).
    rewrite Hrun. cbn. unfold held. rewrite Hq', Hin.
    destruct Hsplit as [Hb|[Hq|Hr]].
    - left. apply in_or_app. left. exact Hb.
    - left. apply in_or_app. right. exact Hq.
    - right. exact Hr. }
  unfold try_catch, deliver, bind, stringify, fetch, throw, ret, modify.
  destruct (navigator_sendBeacon env);
    destruct (JSON_stringify env (payload_for env batch)) as [body|];
    try exact Hcatch;
    destruct (fetch_throws env body); try exact Hcatch;
    (cbn; destruct Hsplit as [Hb|[Hq|[r [Hr Hin]]]];
     [ right; exists (mkRequest body batch); split;
       [apply in_or_app; right; left; reflexivity | exact Hb]
     | left; exact Hq
     | right; exists r; split; [apply in_or_app; left; exact Hr | exact Hin] ]).
Qed.

Lemma enqueue_holds e type payload :
  maintains (held e) (enqueue env type payload).
Proof.
  intros w [Hq|Hr]; rewrite enqueue_eq; cbn.
  - left. cbn. apply in_or_app. left. exact Hq.
  - right. exact Hr.
Qed.

Lemma remove_nth_keeps {T} (n : nat) (l : list T) (x y : T) :
  nth_error l n = Some y -> In x l -> x = y \/ In x (remove_nth n l).
Proof.
  revert n. induction l as [|a l IH]; intros n Hn Hin; [contradiction|].
  destruct n as [|n].
  - cbn in Hn. injection Hn as <-. destruct Hin as [<-|Hin];
      [left; reflexivity | right; exact Hin].
  - cbn in Hn. destruct Hin as [<-|Hin].
    + right. left. reflexivity.
    + destruct (IH n Hn Hin) as [->|Hrest];
        [left; reflexivity | right; right; exact Hrest].
Qed.

(** A failed request loses nothing: its batch is back in the queue. *)
Lemma fetch_rejects_holds e n : maintains (held e) (fetch_rejects n).
Proof.
  intros w Hheld. unfold fetch_rejects, bind at 1, get. cbv beta iota.
  destruct (nth_error (inflight (br w)) n) as [r|] eqn:Hn; [|exact Hheld].
  unfold bind, modify, async, try_catch.
  set (w0 := on_br (fun b => set_inflight (remove_nth n (inflight b)) b) w).
  destruct (flush_catch_eq (req_batch r) w0)
    as (w' & Hrun & Hq' & _ & _ & Hin & _).
  rewrite Hrun. cbn. unfold held. rewrite Hq', Hin.
  destruct Hheld as [Hq|[r' [Hr' He]]].
  - left. apply in_or_app. right. exact Hq.
  - destruct (remove_nth_keeps n _ r' r Hn Hr') as [->|Hkept].
    + left. apply in_or_app. left. exact He.
    + right. exists r'. split; [exact Hkept | exact He].
Qed.

(** X5.  No event lost.  An event the module holds stays held through every
    step but the two that release events: until its request is answered,
    or the page unloads. *)
Lemma no_event_lost e a :
  releases a = false -> maintains (held e) (perform env a).
Proof.
  destruct a; intro Hrel; try discriminate Hrel;
    maintains_walk ltac:(first [ apply enqueue_holds
                               | apply flush_body_holds
                               | apply flush_catch_holds
                               | apply fetch_rejects_holds
                               | held_leaf ]).
Qed.

(** An accepted push leaves its event held. *)
Lemma accepted_event_held type payload w :
  accepted env type payload w ->
  held (event_in env type payload (limiter_pass env type w))
       (world_of (pushEvent env type payload w)).
Proof.
  intro Hacc. rewrite Hacc.
  assert (Hstep : maintains
            (held (event_in env type payload (limiter_pass env type w)))
            (after_push env)).
  { maintains_walk ltac:(first [ apply flush_body_holds | held_leaf ]). }
  apply Hstep. left. cbn. apply in_or_app. right. left. reflexivity.
Qed.

End Invariants.

(* ================================================================== *)
(** ** Delivery failure *)
(* ================================================================== *)

Section Failure.

Variable env : Env.

(** A delivery that throws inside [flush] runs the catch clause in the
    world the flush had reached. *)
Lemma flush_sync_failure useBeacon w :
  queue (st w) <> [] ->
  let batch := firstn MAX_BATCH_SIZE (queue (st w)) in
  ~ returns (deliver env useBeacon (payload_for env batch) batch
               (at_delivery env w)) ->
  flush env useBeacon w = flush_catch batch (at_delivery env w).
Proof.
  intros Hne batch Hthrows.
  unfold flush, async, try_catch at 1.
  rewrite (flush_body_eq env useBeacon w Hne). fold batch.
  unfold try_catch.
  destruct (deliver env useBeacon (payload_for env batch) batch
              (at_delivery env w)) as [[] w'|e w'] eqn:Hd.
  - exfalso. apply Hthrows. exact I.
  - apply deliver_threw in Hd. subst w'.
    destruct (flush_catch_eq batch (at_delivery env w)) as (w' & -> & _).
    reflexivity.
Qed.

Lemma at_delivery_timers_ok w : timers_ok w -> timers_ok (at_delivery env w).
Proof. intro H. exact H. Qed.

(** C1, as the code has it.  When the promise of an awaited request
    rejects, or the delivery throws inside the call, the batch the call
    took is put back in front of what the queue holds at that moment; the
    pending flush timeout is cancelled, and the only flush then scheduled
    is a new one after 9000 ms, which [flushTimer] names.  When the queue
    at that moment is what the call left plus events appended since, the
    queue afterwards is the queue before the call followed by those
    events: nothing lost, nothing twice, order kept. *)
Theorem flush_failure_requeues :
  (forall w n r,
      timers_ok w ->
      nth_error (inflight (br w)) n = Some r ->
      exists w',
        fetch_rejects n w = Ok tt w'
        /\ queue (st w') = req_batch r ++ queue (st w)
        /\ timeouts (br w') = [(next_timer (br w), BACKOFF_MS)]
        /\ flushTimer (st w') = Some (next_timer (br w))
        /\ inflight (br w') = remove_nth n (inflight (br w)))
  /\ (forall useBeacon w,
        timers_ok w ->
        queue (st w) <> [] ->
        ~ returns (deliver env useBeacon
                     (payload_for env (firstn MAX_BATCH_SIZE (queue (st w))))
                     (firstn MAX_BATCH_SIZE (queue (st w)))
                     (at_delivery env w)) ->
        exists w',
          flush env useBeacon w = Ok tt w'
          /\ queue (st w') = queue (st w)
          /\ timeouts (br w') = [(next_timer (br w), BACKOFF_MS)]
          /\ flushTimer (st w') = Some (next_timer (br w)))
  /\ (forall q later batch w,
        batch = firstn MAX_BATCH_SIZE q ->
        queue (st w) = skipn MAX_BATCH_SIZE q ++ later ->
        queue (st (world_of (flush_catch batch w))) = q ++ later).
Proof.
  split; [|split].
  - intros w n r Hok Hn.
    unfold fetch_rejects, bind at 1, get. cbv beta iota. rewrite Hn.
    unfold bind, modify, async, try_catch.
    set (w0 := on_br (fun b => set_inflight (remove_nth n (inflight b)) b) w).
    destruct (flush_catch_backoff (req_batch r) w0 Hok)
      as (w' & Hrun & Hq & Hts & Hft & Hin).
    rewrite Hrun. exists w'. repeat split; assumption.
  - intros useBeacon w Hok Hne Hthrows.
    rewrite (flush_sync_failure useBeacon w Hne Hthrows).
    destruct (flush_catch_backoff (firstn MAX_BATCH_SIZE (queue (st w)))
                (at_delivery env w) (at_delivery_timers_ok w Hok))
      as (w' & Hrun & Hq & Hts & Hft & _).
    exists w'. repeat split; try assumption.
    rewrite Hq. apply (firstn_skipn MAX_BATCH_SIZE).
  - intros q later batch w -> Hq.
    destruct (flush_catch_eq (firstn MAX_BATCH_SIZE q) w)
      as (w' & Hrun & Hq' & _).
    rewrite Hrun. cbn. rewrite Hq', Hq, app_assoc, firstn_skipn. reflexivity.
Qed.

(** C5, as the code has it.  An event in the payload handed to the
    transport has exactly the properties ts, type, task_id, session_id,
    payload, page and ua when the batch is sent as it is, and exactly ts,
    type, task_id, session_id, payload and page, without ua, when it is
    sent trimmed. *)
Theorem delivered_event_fields batch e :
  Forall is_event batch ->
  In e (delivered_events (payload_for env batch)) ->
  (reported_size env (payload_of batch) <= MAX_PAYLOAD_BYTES ->
     keys e = event_fields /\ has_exactly event_fields e)
  /\ (MAX_PAYLOAD_BYTES < reported_size env (payload_of batch) ->
        keys e = trimmed_fields /\ has_exactly trimmed_fields e
        /\ ~ In "ua" (keys e)).
Proof.
  intros Hb Hin. unfold payload_for in Hin. split; intro Hsize.
  - destruct (Z.ltb_spec MAX_PAYLOAD_BYTES
                (reported_size env (payload_of batch))); [lia|].
    cbn in Hin. apply (proj1 (Forall_forall _ _) Hb) in Hin.
    destruct Hin as (ts & type & tid & sid & p & page & ua & ->).
    split; [reflexivity | intro k; reflexivity].
  - destruct (Z.ltb_spec MAX_PAYLOAD_BYTES
                (reported_size env (payload_of batch))); [|lia].
    cbn in Hin. apply in_map_iff in Hin. destruct Hin as (e0 & <- & _).
    split; [reflexivity | split; [intro k; reflexivity|]].
    cbn. intros [E|[E|[E|[E|[E|[E|[]]]]]]]; discriminate.
Qed.

(** C9, as the code has it.  Called with an object, [setContext] returns;
    [log] and [flush] return on every input; the promise of a flush never
    rejects, nor does the resumption of a flush whose request failed throw.
    A push over its cap returns having touched the limiter only; a
    serialization failure in [approxByteSize] yields size 0; a delivery
    that throws is answered by the catch clause. *)
Theorem entry_points_return :
  (forall sessionId taskId w,
      returns (setContext env (ArgObject sessionId taskId) w))
  /\ (forall type payload w, returns (log env type payload w))
  /\ (forall w, returns (public_flush env w))
  /\ (forall useBeacon w, returns (flush_body env useBeacon w))
  /\ (forall n w, returns (fetch_rejects n w))
  /\ (forall c type payload w,
        capped_of type = Some c ->
        cap_limit c < count_of c (counters_at_test env w) ->
        log env type payload w = Ok tt (limiter_pass env type w))
  /\ (forall obj w,
        JSON_stringify env obj = None ->
        approxByteSize env obj w = Ok 0 w)
  /\ (forall useBeacon w,
        queue (st w) <> [] ->
        ~ returns (deliver env useBeacon
                     (payload_for env (firstn MAX_BATCH_SIZE (queue (st w))))
                     (firstn MAX_BATCH_SIZE (queue (st w)))
                     (at_delivery env w)) ->
        flush env useBeacon w
        = flush_catch (firstn MAX_BATCH_SIZE (queue (st w)))
                      (at_delivery env w)
        /\ returns (flush env useBeacon w)).
Proof.
  split; [intros; apply safe_setContext_object|].
  split; [intros; apply safe_pushEvent|].
  split; [intros; apply safe_flush|].
  split; [intros; apply safe_flush_body|].
  split; [intros; apply safe_fetch_rejects|].
  split; [|split].
  - intros c type payload w Hc Hlt.
    apply (pushEvent_over_cap env c type payload w Hc Hlt).
  - intros obj w Hnone. rewrite approxByteSize_eq.
    unfold reported_size. rewrite Hnone. reflexivity.
  - intros useBeacon w Hne Hthrows. split.
    + apply (flush_sync_failure useBeacon w Hne Hthrows).
    + apply safe_flush.
Qed.

End Failure.

(* ================================================================== *)
(** ** Scheduling after a push *)
(* ================================================================== *)

Section Scheduling.

Variable env : Env.

(** Lines 76-78: a timeout at the flush interval is set when [flushTimer]
    is null, and only then. *)
Lemma schedule_flush_eq w :
  schedule_flush w
  = match flushTimer (st w) with
    | None =>
        Ok tt (on_st (set_flushTimer (Some (next_timer (br w))))
                 (on_br (fun b =>
                    set_next_timer (Pos.succ (next_timer (br w)))
                      (set_timeouts
                         (timeouts b ++ [(next_timer (br w), FLUSH_INTERVAL_MS)])
                         b)) w))
    | Some _ => Ok tt w
    end.
Proof.
  unfold schedule_flush, bind, get. cbv beta iota.
  destruct (flushTimer (st w)); reflexivity.
Qed.

(** Lines 80-81: a queue of 30 or more is flushed at once. *)
Lemma flush_if_full_eq w :
  flush_if_full env w
  = if (MAX_BATCH_SIZE <=? List.length (queue (st w)))%nat
    then flush env false w
    else Ok tt w.
Proof.
  unfold flush_if_full, bind, get. cbv beta iota.
  destruct (_ <=? _)%nat; reflexivity.
Qed.

(** Thirty events on an empty queue: the thirtieth push hands all thirty
    to the transport and, when [fetch] accepts them, leaves the queue
    empty. *)
Lemma thirtieth_push_empties_queue w body :
  List.length (queue (st w)) = 30%nat ->
  JSON_stringify env
    (payload_for env (firstn MAX_BATCH_SIZE (queue (st w)))) = Some body ->
  fetch_throws env body = false ->
  exists w',
    flush_if_full env w = Ok tt w'
    /\ queue (st w') = []
    /\ inflight (br w') = inflight (br w) ++ [mkRequest body (queue (st w))].
Proof.
  intros Hlen Hbody Hfetch.
  assert (Hne : queue (st w) <> []).
  { intro E. rewrite E in Hlen. discriminate. }
  assert (Hall : firstn MAX_BATCH_SIZE (queue (st w)) = queue (st w)).
  { unfold MAX_BATCH_SIZE. rewrite <- Hlen. apply firstn_all. }
  assert (Hnone : skipn MAX_BATCH_SIZE (queue (st w)) = []).
  { unfold MAX_BATCH_SIZE. rewrite <- Hlen. apply skipn_all. }
  rewrite flush_if_full_eq, Hlen. cbn [Nat.leb MAX_BATCH_SIZE].
  rewrite (flush_awaits env w body Hne Hbody Hfetch), Hall.
  eexists. split; [reflexivity|].
  unfold at_delivery, on_br, on_st.
  cbn [st br queue inflight set_queue set_lastFlushAt set_inflight set_reads].
  split; [exact Hnone | reflexivity].
Qed.

(** No step of the module sets [flushTimer] back to null. *)
Lemma flushTimer_stays_set a :
  maintains (fun w => flushTimer (st w) <> None) (perform env a).
Proof.
  destruct a;
    maintains_walk ltac:(cbn in *; first [assumption | discriminate]).
Qed.

(** X6.  Once a flush has been scheduled, in no later state does a push
    schedule one: lines 76-78 do nothing from then on. *)
Lemma no_rescheduling_after_first acts w :
  flushTimer (st w) <> None ->
  let w' := run env acts w in
  flushTimer (st w') <> None /\ schedule_flush w' = Ok tt w'.
Proof.
  intros Hset w'.
  assert (Hset' : flushTimer (st w') <> None).
  { apply (run_maintains env (fun w => flushTimer (st w) <> None));
      [apply flushTimer_stays_set | exact Hset]. }
  split; [exact Hset'|].
  rewrite schedule_flush_eq.
  destruct (flushTimer (st w')); [reflexivity | contradiction].
Qed.

End Scheduling.

(* ================================================================== *)
(** ** The properties at concrete runs *)
(* ================================================================== *)

(** On a clock that advances with every read, forty copies with other
    traffic in between leave room for one more copy and for none after
    that; and each of the other four types is stopped at its own
    threshold. *)
Lemma rate_cap_boundary_witness :
  let env := millisecond_env in
  let w := init env in
  let full c := repeat (submit c) (Z.to_nat (cap_limit c)) in
  (fresh_window env Copy busy_minute w
   /\ fresh_window env Copy (busy_minute ++ [submit Copy]) w
   /\ accepted env (VStr "copy") (VObj []) (run env busy_minute w)
   /\ dropped env (VStr "copy") (VObj [])
        (run env (busy_minute ++ [submit Copy]) w))
  /\ (accepted env (VStr "paste") (VObj []) (run env (full Paste) w)
      /\ dropped env (VStr "paste") (VObj [])
           (run env (submit Paste :: full Paste) w))
  /\ (accepted env (VStr "cut") (VObj []) (run env (full Cut) w)
      /\ dropped env (VStr "cut") (VObj [])
           (run env (submit Cut :: full Cut) w))
  /\ (accepted env (VStr "tab_hidden") (VObj []) (run env (full TabHidden) w)
      /\ dropped env (VStr "tab_hidden") (VObj [])
           (run env (submit TabHidden :: full TabHidden) w))
  /\ (accepted env (VStr "blur") (VObj []) (run env (full Blur) w)
      /\ dropped env (VStr "blur") (VObj [])
           (run env (submit Blur :: full Blur) w)).
Proof.
  intros env w full.
  assert (Hfresh : forall c acts,
            (reads (br (run env acts w)) < 1000)%nat ->
            fresh_window env c acts w).
  { intros c acts Hlast. left. split; [destruct c; reflexivity|].
    intros n Hn. change (Z.of_nat n - 1 < 60000). lia. }
  assert (H40 : fresh_window env Copy busy_minute w)
    by (apply Hfresh; vm_compute; lia).
  assert (H41 : fresh_window env Copy (busy_minute ++ [submit Copy]) w)
    by (apply Hfresh; vm_compute; lia).
  split; [split; [exact H40 | split; [exact H41 | split]] |].
  - destruct (rate_cap_boundary env Copy busy_minute (VObj []) w H40)
      as (Hpass & _ & _).
    apply Hpass. vm_compute. discriminate.
  - destruct (rate_cap_boundary env Copy (busy_minute ++ [submit Copy])
                (VObj []) w H41) as (_ & Hdrop & _).
    apply Hdrop. reflexivity.
  - assert (Hedge : forall c,
              accepted env (VStr (cap_name c)) (VObj []) (run env (full c) w)
              /\ dropped env (VStr (cap_name c)) (VObj [])
                   (run env (submit c :: full c) w)).
    { intro c. split.
      - destruct (rate_cap_boundary env c (full c) (VObj []) w)
          as (Hpass & _ & _);
          [apply Hfresh; destruct c; vm_compute; lia|].
        apply Hpass. destruct c; vm_compute; discriminate.
      - destruct (rate_cap_boundary env c (submit c :: full c) (VObj []) w)
          as (_ & Hdrop & _);
          [apply Hfresh; destruct c; vm_compute; lia|].
        apply Hdrop. destruct c; reflexivity. }
    exact (conj (Hedge Paste)
             (conj (Hedge Cut) (conj (Hedge TabHidden) (Hedge Blur)))).
Defined.

(** At exactly one minute past the window start, a copy counter at 99 does
    not stop a copy. *)
Lemma window_reset_witness :
  let w := on_st (set_counters (mkCounters 99 0 0 0 0)) (init minute_env) in
  MINUTE_MS <= clock minute_env (reads (br w)) - minuteWindowStart (st w)
  /\ accepted minute_env (VStr "copy") (VObj []) w.
Proof.
  intro w.
  assert (H : MINUTE_MS
              <= clock minute_env (reads (br w)) - minuteWindowStart (st w))
    by (vm_compute; discriminate).
  split; [exact H|].
  apply (window_reset minute_env (VStr "copy") (VObj []) w H).
Defined.

(** A heartbeat one second after task 7 was opened reports one second. *)
Lemma heartbeat_tick_witness :
  truthy_prim (currentTaskId (st on_task_7)) = true
  /\ heartbeat ticking_env on_task_7
     = pushEvent ticking_env (VStr "heartbeat")
         (VObj [ ("seconds_on_task", VNum 1) ])
         (on_br (set_reads (S (reads (br on_task_7)))) on_task_7).
Proof.
  split; [reflexivity|].
  exact (proj1 (proj2 (heartbeat_tick ticking_env on_task_7) eq_refl)).
Defined.

(** Setting task 7 again restarts the clock of task 7. *)
Lemma setContext_same_task_witness :
  defined (PNum 7) = true
  /\ strict_eq (currentTaskId (st on_task_7)) (PNum 7) = true
  /\ exists w',
       setContext ticking_env (ArgObject PUndefined (PNum 7)) on_task_7
       = Ok tt w'
       /\ traffic_view w' = traffic_view on_task_7
       /\ lastTaskOpenedAt (st w') = 3000.
Proof.
  split; [reflexivity | split; [reflexivity|]].
  destruct (setContext_same_task ticking_env PUndefined (PNum 7) on_task_7
              eq_refl eq_refl) as (w' & Hrun & Htraffic & _ & _ & Hopened & _).
  exists w'. split; [exact Hrun | split; [exact Htraffic | exact Hopened]].
Defined.

(** Going from task 7 to task 8 pushes one event and stores task 8. *)
Lemma setContext_task_switch_witness :
  defined (PNum 8) = true
  /\ strict_eq (currentTaskId (st on_task_7)) (PNum 8) = false
  /\ truthy_prim (currentTaskId (st on_task_7)) = true
  /\ accepted ticking_env (VStr "task_switch")
       (task_switch_payload (PNum 7) (PNum 8) 1)
       (on_br (set_reads (S (reads (br on_task_7))))
              (with_session PUndefined on_task_7))
  /\ exists w3,
       setContext ticking_env (ArgObject PUndefined (PNum 8)) on_task_7
       = Ok tt w3
       /\ currentTaskId (st w3) = PNum 8.
Proof.
  split; [reflexivity | split; [reflexivity | split; [reflexivity|]]].
  destruct (setContext_task_switch ticking_env PUndefined (PNum 8) on_task_7
              eq_refl eq_refl) as [Hswitch _].
  destruct (Hswitch eq_refl)
    as (Hadm & _ & _ & _ & w2 & w3 & _ & Hrun & _ & _ & Htask & _).
  split; [exact Hadm|].
  exists w3. split; [exact Hrun | exact Htask].
Defined.

(** A one-event batch over the cap is sent trimmed. *)
Lemma flush_batch_and_trim_witness :
  let w := run heavy_env [focus] (init heavy_env) in
  queue (st w) <> []
  /\ MAX_PAYLOAD_BYTES
     < reported_size heavy_env
         (payload_of (firstn MAX_BATCH_SIZE (queue (st w))))
  /\ payload_for heavy_env (firstn MAX_BATCH_SIZE (queue (st w)))
     = payload_of (map trim (firstn MAX_BATCH_SIZE (queue (st w)))).
Proof.
  intro w.
  assert (Hne : queue (st w) <> []) by (vm_compute; discriminate).
  assert (Hbig : MAX_PAYLOAD_BYTES
                 < reported_size heavy_env
                     (payload_of (firstn MAX_BATCH_SIZE (queue (st w)))))
    by reflexivity.
  split; [exact Hne | split; [exact Hbig|]].
  destruct (flush_batch_and_trim heavy_env false w Hne)
    as (_ & _ & _ & _ & _ & Htrim & _).
  exact (proj1 (Htrim Hbig)).
Defined.

(** The trimmed form of an event has six properties; ua is not one. *)
Lemma delivered_event_fields_witness :
  Forall is_event [focus_event]
  /\ In (trim focus_event)
        (delivered_events (payload_for heavy_env [focus_event]))
  /\ keys (trim focus_event) = trimmed_fields
  /\ ~ In "ua" (keys (trim focus_event)).
Proof.
  assert (Hev : Forall is_event [focus_event]).
  { constructor; [apply event_literal_is_event | constructor]. }
  assert (Hin : In (trim focus_event)
                   (delivered_events (payload_for heavy_env [focus_event])))
    by (left; reflexivity).
  split; [exact Hev | split; [exact Hin|]].
  destruct (delivered_event_fields heavy_env [focus_event] (trim focus_event)
              Hev Hin) as [_ Htrim].
  destruct (Htrim eq_refl) as (Hkeys & _ & Hua).
  split; [exact Hkeys | exact Hua].
Defined.

(** A rejected request puts its batch back and backs off; a [fetch] that
    throws does the same inside the call. *)
Lemma flush_failure_requeues_witness :
  let w := run quiet_env [focus; CallFlush] (init quiet_env) in
  let v := run offline_env [focus] (init offline_env) in
  timers_ok w
  /\ nth_error (inflight (br w)) 0 = Some (mkRequest "{}" [focus_event])
  /\ (exists w',
        fetch_rejects 0 w = Ok tt w'
        /\ queue (st w') = [focus_event] ++ queue (st w)
        /\ timeouts (br w') = [(next_timer (br w), BACKOFF_MS)])
  /\ timers_ok v
  /\ queue (st v) <> []
  /\ (exists v',
        flush offline_env false v = Ok tt v'
        /\ queue (st v') = queue (st v)
        /\ timeouts (br v') = [(next_timer (br v), BACKOFF_MS)]).
Proof.
  intros w v.
  assert (Hw : timers_ok w) by apply timers_ok_run.
  assert (Hn : nth_error (inflight (br w)) 0
               = Some (mkRequest "{}" [focus_event])) by reflexivity.
  assert (Hv : timers_ok v) by apply timers_ok_run.
  assert (Hne : queue (st v) <> []) by (vm_compute; discriminate).
  destruct (flush_failure_requeues quiet_env) as (Hreject & _ & _).
  destruct (flush_failure_requeues offline_env) as (_ & Hthrow & _).
  split; [exact Hw | split; [exact Hn | split]].
  - destruct (Hreject w 0%nat _ Hw Hn) as (w' & Hrun & Hq & Hts & _).
    exists w'. split; [exact Hrun | split; [exact Hq | exact Hts]].
  - split; [exact Hv | split; [exact Hne|]].
    destruct (Hthrow false v Hv Hne) as (v' & Hrun & Hq & Hts & _).
    { vm_compute. intros []. }
    exists v'. split; [exact Hrun | split; [exact Hq | exact Hts]].
Defined.

(** A 42nd copy returns quietly; a serializer that throws gives size 0. *)
Lemma entry_points_return_witness :
  let w := run quiet_env (map (CallLog (VStr "copy")) (repeat (VObj []) 41))
               (init quiet_env) in
  capped_of (VStr "copy") = Some Copy
  /\ cap_limit Copy < count_of Copy (counters_at_test quiet_env w)
  /\ log quiet_env (VStr "copy") (VObj []) w
     = Ok tt (limiter_pass quiet_env (VStr "copy") w)
  /\ JSON_stringify unserializable_env (VObj []) = None
  /\ approxByteSize unserializable_env (VObj []) (init unserializable_env)
     = Ok 0 (init unserializable_env).
Proof.
  intro w.
  assert (Hc : capped_of (VStr "copy") = Some Copy) by reflexivity.
  assert (Hlt : cap_limit Copy < count_of Copy (counters_at_test quiet_env w))
    by (vm_compute; reflexivity).
  destruct (entry_points_return quiet_env)
    as (_ & _ & _ & _ & _ & Hdrop & _ & _).
  destruct (entry_points_return unserializable_env)
    as (_ & _ & _ & _ & _ & _ & Hsize & _).
  split; [exact Hc | split; [exact Hlt | split]].
  - exact (Hdrop Copy (VStr "copy") (VObj []) w Hc Hlt).
  - split; [reflexivity|].
    exact (Hsize (VObj []) (init unserializable_env) eq_refl).
Defined.

(** *** Where the specification and the code part *)

(** Against C1 as worded.  An event is logged and flushed by hand; while
    its request is awaited thirty more events are logged, the thirtieth of
    which starts a second flush that takes all thirty.  The first request
    fails: the queue is then the first batch alone, not the first batch
    followed by the thirty events enqueued in the meantime.  The second
    request fails: its batch goes in front of the first event, which was
    enqueued before every event of that batch. *)
Lemma requeue_is_not_batch_then_later_events :
  let w1 := run quiet_env [CallLog (VStr "first") (VObj []); CallFlush]
                (init quiet_env) in
  let w2 := run quiet_env (repeat focus 30) w1 in
  let w3 := run quiet_env [FetchRejects 0] w2 in
  let w4 := run quiet_env [FetchRejects 0] w3 in
  map req_batch (inflight (br w1)) = [[first_event]]
  /\ queue (st w1) = []
  /\ map req_batch (inflight (br w2))
     = [[first_event]; repeat focus_event 30]
  /\ queue (st w3) = [first_event]
  /\ ~ requeued_as_claimed [first_event] (repeat focus_event 30) w3
  /\ queue (st w4) = repeat focus_event 30 ++ [first_event]
  /\ ~ requeued_as_claimed (repeat focus_event 30) [] w4.
Proof.
  intros w1 w2 w3 w4.
  assert (H3 : queue (st w3) = [first_event]) by (vm_compute; reflexivity).
  assert (H4 : queue (st w4) = repeat focus_event 30 ++ [first_event])
    by (vm_compute; reflexivity).
  split; [vm_compute; reflexivity|].
  split; [vm_compute; reflexivity|].
  split; [vm_compute; reflexivity|].
  split; [exact H3|].
  split.
  { unfold requeued_as_claimed. rewrite H3. intro H.
    apply (f_equal (@List.length value)) in H. discriminate H. }
  split; [exact H4|].
  unfold requeued_as_claimed. rewrite H4. intro H.
  apply (f_equal (@List.length value)) in H. discriminate H.
Qed.

(** Against C5 as worded.  With every Blob over the cap, the one event
    delivered is a trimmed one, and it has no ua. *)
Lemma trimmed_event_has_no_ua :
  delivered_events (payload_for heavy_env [focus_event]) = [trim focus_event]
  /\ keys (trim focus_event) = trimmed_fields
  /\ ~ has_exactly event_fields (trim focus_event)
  /\ ~ seven_fields_always heavy_env.
Proof.
  assert (Hno : ~ has_exactly event_fields (trim focus_event)).
  { intro H. destruct (H "ua") as [_ Hua].
    assert (Hin : In "ua" event_fields) by (cbn; tauto).
    specialize (Hua Hin). cbn in Hua.
    destruct Hua as [E|[E|[E|[E|[E|[E|[]]]]]]]; discriminate. }
  split; [reflexivity | split; [reflexivity | split; [exact Hno|]]].
  intro H. apply Hno. apply (H [focus_event]).
  - constructor; [apply event_literal_is_event | constructor].
  - left. reflexivity.
Qed.

(** C6 at a failing run.  The first push schedules a flush after 5000 ms.
    The timeout fires and the request is answered; [flushTimer] still
    holds the identifier of the timeout that fired.  Nothing is scheduled
    now, yet the next push schedules nothing: its event stays in the queue
    with no flush pending. *)
Lemma stale_flushTimer_blocks_scheduling :
  let w1 := run quiet_env [focus] (init quiet_env) in
  let w2 := run quiet_env [TimeoutFires 1; FetchFulfils 0] w1 in
  let w3 := run quiet_env [focus] w2 in
  timeouts (br w1) = [(1%positive, FLUSH_INTERVAL_MS)]
  /\ timeouts (br w2) = []
  /\ no_event_anywhere w2
  /\ flushTimer (st w2) = Some 1%positive
  /\ queue (st w3) = [focus_event]
  /\ timeouts (br w3) = []
  /\ inflight (br w3) = [].
Proof. vm_compute. repeat split. Qed.

(** Against C7 as worded.  The first task ever set differs from the
    current task id, which is null; no task_switch event is pushed. *)
Lemma first_task_pushes_no_switch :
  let w := init quiet_env in
  let w' := world_of (setContext quiet_env (ArgObject PUndefined (PNum 7)) w) in
  defined (PNum 7) = true
  /\ strict_eq (currentTaskId (st w)) (PNum 7) = false
  /\ no_event_anywhere w
  /\ no_event_anywhere w'
  /\ currentTaskId (st w') = PNum 7.
Proof. vm_compute. repeat split. Qed.

(** Against C9 as worded.  Called with no argument, [setContext] throws a
    TypeError at its parameter pattern. *)
Lemma setContext_without_argument_throws :
  setContext quiet_env ArgUndefined (init quiet_env)
  = Threw TypeError (init quiet_env)
  /\ ~ setContext_never_throws quiet_env.
Proof.
  split; [reflexivity|].
  intro H. exact (H ArgUndefined (init quiet_env)).
Qed.

(* ================================================================== *)
(** ** The listeners are pushes *)
(* ================================================================== *)

Section ListenerFacts.

Variable env : Env.

(** [safeTextLen] of a string is the number of its code units, and of
    anything falsy 0: it never reads [length] off null or undefined. *)
Lemma safeTextLen_string s w :
  safeTextLen (TextString s) w = Ok (text_len s) w.
Proof. destruct s; reflexivity. Qed.

Lemma safeTextLen_falsy t w :
  text_truthy t = false -> safeTextLen t w = Ok (VNum 0) w.
Proof.
  intro H. unfold safeTextLen, or_empty_string. rewrite H. reflexivity.
Qed.

(** A character outside the basic plane counts twice, as [length] has
    it: eight for seven characters. *)
Lemma copy_listener_counts_code_units w :
  listener env (DomCopy (Some hello_face)) w
  = log env (VStr "copy") (VObj [ ("selection_len", VNum 8) ]) w.
Proof. reflexivity. Qed.

(** X1.  Every listener is one call of [log]: the type is fixed by the signal,
    and the payload holds at most one number, the length of the selected
    or pasted text, counted in UTF-16 code units as [length] counts it,
    which is 0 when there is no selection, no clipboard data, or a
    clipboard that throws when read.  No listener throws. *)
Theorem listeners_are_logs d w :
  listener env d w = log env (VStr (dom_type d)) (dom_payload d) w
  /\ returns (listener env d w).
Proof.
  assert (E : listener env d w
              = log env (VStr (dom_type d)) (dom_payload d) w).
  { destruct d as [sel|sel|cd|hidden| |]; cbn [listener dom_type dom_payload].
    - unfold on_copy, bind, selection_text.
      destruct sel as [s|]; rewrite safeTextLen_string; reflexivity.
    - unfold on_cut, bind, selection_text.
      destruct sel as [s|]; rewrite safeTextLen_string; reflexivity.
    - unfold on_paste, bind at 1, try_catch, bind, clipboard_text.
      destruct cd as [[s|]|]; cbn [throw ret].
      + destruct s as [|u s]; reflexivity.
      + reflexivity.
      + rewrite safeTextLen_falsy by reflexivity. reflexivity.
    - destruct hidden; reflexivity.
    - reflexivity.
    - reflexivity. }
  split; [exact E|]. rewrite E. apply safe_pushEvent.
Qed.

End ListenerFacts.

(* ================================================================== *)
(** ** The shape of the two timers *)
(* ================================================================== *)

Section TimerShapes.

Variable env : Env.

Lemma drop_timer_one id id' d :
  drop_timer id' [(id, d)] = [] \/ drop_timer id' [(id, d)] = [(id, d)].
Proof.
  unfold drop_timer. cbn. destruct (Pos.eqb id id'); [left | right]; reflexivity.
Qed.

Lemma schedule_flush_shape : maintains flush_timer_shape schedule_flush.
Proof.
  intros w H. rewrite schedule_flush_eq. unfold flush_timer_shape in *.
  destruct (flushTimer (st w)) as [id|] eqn:Hft; cbn.
  - rewrite Hft. exact H.
  - rewrite H. right. left. reflexivity.
Qed.

Lemma flush_catch_shape batch : maintains flush_timer_shape (flush_catch batch).
Proof.
  intros w H. destruct (flush_catch_eq batch w)
    as (w' & Hrun & _ & Hts & Hft & _).
  rewrite Hrun. cbn. unfold flush_timer_shape in *. rewrite Hft, Hts.
  right. right.
  destruct (flushTimer (st w)) as [id|].
  - destruct H as [-> | [-> | ->]]; [reflexivity| |];
      unfold drop_timer; cbn; rewrite Pos.eqb_refl; reflexivity.
  - rewrite H. reflexivity.
Qed.

Lemma drop_timer_shape id :
  maintains flush_timer_shape
    (modify (on_br (fun b => set_timeouts (drop_timer id (timeouts b)) b))).
Proof.
  intros w H. unfold flush_timer_shape in *. cbn.
  destruct (flushTimer (st w)) as [id'|].
  - destruct H as [-> | [-> | ->]]; [left; reflexivity| |].
    + destruct (drop_timer_one id' id FLUSH_INTERVAL_MS) as [-> | ->];
        [left | right; left]; reflexivity.
    + destruct (drop_timer_one id' id BACKOFF_MS) as [-> | ->];
        [left | right; right]; reflexivity.
  - rewrite H. reflexivity.
Qed.

Ltac shape_leaf := unfold flush_timer_shape in *; cbn in *; assumption.

Lemma perform_flush_timer_shape a :
  maintains flush_timer_shape (perform env a).
Proof.
  destruct a;
    maintains_walk_with
      ltac:(first [ apply schedule_flush_shape
                  | apply flush_catch_shape
                  | apply drop_timer_shape ])
      ltac:(shape_leaf).
Qed.

(** X2.  In every state a run can reach, at most one flush timeout is pending;
    it is the one [flushTimer] names, and it is due after 5000 ms or after
    9000 ms. *)
Theorem flush_timer_shape_run acts :
  flush_timer_shape (run env acts (init env))
  /\ (List.length (timeouts (br (run env acts (init env)))) <= 1)%nat.
Proof.
  assert (H : flush_timer_shape (run env acts (init env))).
  { apply run_maintains; [apply perform_flush_timer_shape | reflexivity]. }
  split; [exact H|].
  unfold flush_timer_shape in H.
  destruct (flushTimer (st (run env acts (init env)))).
  - destruct H as [-> | [-> | ->]]; cbn; lia.
  - rewrite H. cbn. lia.
Qed.

Lemma stopHeartbeat_shape w :
  heartbeat_timer_shape w ->
  exists w',
    stopHeartbeat w = Ok tt w'
    /\ heartbeatTimer (st w') = None
    /\ intervals (br w') = []
    /\ next_timer (br w') = next_timer (br w)
    /\ traffic_view w' = traffic_view w
    /\ timer_view w' = timer_view w
    /\ context_view w' = context_view w
    /\ limiter_view w' = limiter_view w.
Proof.
  intro H. unfold heartbeat_timer_shape in H.
  unfold stopHeartbeat, bind, get, clearInterval, modify. cbv beta iota.
  destruct (heartbeatTimer (st w)) as [id|] eqn:Hhb.
  - eexists. split; [reflexivity|]. cbn. rewrite H.
    unfold drop_timer. cbn. rewrite Pos.eqb_refl. repeat split.
  - exists w. rewrite Hhb, H. repeat split.
Qed.

Lemma startHeartbeat_shape w :
  heartbeat_timer_shape w ->
  exists w',
    startHeartbeat w = Ok tt w'
    /\ heartbeatTimer (st w') = Some (next_timer (br w))
    /\ intervals (br w') = [(next_timer (br w), HEARTBEAT_SEC * 1000)]
    /\ traffic_view w' = traffic_view w
    /\ timer_view w' = timer_view w
    /\ context_view w' = context_view w
    /\ limiter_view w' = limiter_view w.
Proof.
  intro H.
  destruct (stopHeartbeat_shape w H)
    as (w1 & Hrun & Hhb & Hiv & Hnext & Ht & Htm & Hc & Hl).
  unfold startHeartbeat, bind at 1. rewrite Hrun.
  unfold bind, setInterval, modify.
  eexists. split; [reflexivity|]. cbn. rewrite Hiv, Hnext.
  repeat split; assumption.
Qed.

Lemma stopHeartbeat_maintains_shape :
  maintains heartbeat_timer_shape stopHeartbeat.
Proof.
  intros w H. destruct (stopHeartbeat_shape w H) as (w' & -> & Hhb & Hiv & _).
  cbn. unfold heartbeat_timer_shape. rewrite Hhb, Hiv. reflexivity.
Qed.

Lemma startHeartbeat_maintains_shape :
  maintains heartbeat_timer_shape startHeartbeat.
Proof.
  intros w H. destruct (startHeartbeat_shape w H) as (w' & -> & Hhb & Hiv & _).
  cbn. unfold heartbeat_timer_shape. rewrite Hhb, Hiv. reflexivity.
Qed.

Ltac beat_leaf := unfold heartbeat_timer_shape in *; cbn in *; assumption.

Lemma perform_heartbeat_timer_shape a :
  maintains heartbeat_timer_shape (perform env a).
Proof.
  destruct a;
    maintains_walk_with
      ltac:(first [ apply startHeartbeat_maintains_shape
                  | apply stopHeartbeat_maintains_shape ])
      ltac:(beat_leaf).
Qed.

(** X3.  In every state a run can reach, the heartbeat intervals that are
    active are exactly the one [heartbeatTimer] names, firing every 10000
    ms, and none when it is null: restarting never leaves an old interval
    behind. *)
Theorem heartbeat_timer_shape_run acts :
  heartbeat_timer_shape (run env acts (init env)).
Proof.
  apply run_maintains; [apply perform_heartbeat_timer_shape | reflexivity].
Qed.

End TimerShapes.

(* ================================================================== *)
(** ** What a flush and a push do to the queue *)
(* ================================================================== *)

Section QueueOutcomes.

Variable env : Env.

(** A delivery touches the browser only. *)
Lemma deliver_frames_state useBeacon payload batch :
  frames st (deliver env useBeacon payload batch).
Proof. frames_walk. Qed.


(** The two ways a flush of a queue that is not empty can end. *)
Lemma flush_nonempty_cases useBeacon w :
  queue (st w) <> [] ->
  (exists w', flush env useBeacon w = Ok tt w'
              /\ st w' = st (at_delivery env w))
  \/ flush env useBeacon w
     = flush_catch (firstn MAX_BATCH_SIZE (queue (st w))) (at_delivery env w).
Proof.
  intro Hne.
  set (batch := firstn MAX_BATCH_SIZE (queue (st w))).
  assert (E : flush env useBeacon w
              = match deliver env useBeacon (payload_for env batch) batch
                        (at_delivery env w) with
                | Ok a w' => Ok a w'
                | Threw _ w' => flush_catch batch w'
                end).
  { unfold flush, async, try_catch at 1.
    rewrite (flush_body_eq env useBeacon w Hne). fold batch.
    unfold try_catch.
    destruct (deliver env useBeacon (payload_for env batch) batch
                (at_delivery env w)) as [[] w'|e w']; [reflexivity|].
    destruct (flush_catch_eq batch w') as (w'' & -> & _). reflexivity. }
  rewrite E.
  pose proof (frames_eq st _ (at_delivery env w)
                (deliver_frames_state useBeacon (payload_for env batch) batch))
    as Hst.
  destruct (deliver env useBeacon (payload_for env batch) batch
              (at_delivery env w)) as [[] w'|e w'] eqn:Hd.
  - left. exists w'. split; [reflexivity | exact Hst].
  - right. apply deliver_threw in Hd. subst w'. reflexivity.
Qed.

Lemma flush_empty useBeacon w :
  queue (st w) = [] -> flush env useBeacon w = Ok tt w.
Proof.
  intro H. unfold flush, async, try_catch.
  rewrite (flush_body_empty env useBeacon w H). reflexivity.
Qed.

Lemma flush_queue_cases useBeacon w :
  queue (st (world_of (flush env useBeacon w)))
  = skipn MAX_BATCH_SIZE (queue (st w))
  \/ queue (st (world_of (flush env useBeacon w))) = queue (st w).
Proof.
  assert (Hcases : queue (st w) = [] \/ queue (st w) <> []).
  { destruct (queue (st w)); [left; reflexivity | right; discriminate]. }
  destruct Hcases as [Hempty|Hne].
  - right. rewrite (flush_empty useBeacon w Hempty). reflexivity.
  - destruct (flush_nonempty_cases useBeacon w Hne) as [(w' & -> & Hst) | ->].
    + left. cbn. rewrite Hst. reflexivity.
    + right.
      destruct (flush_catch_eq (firstn MAX_BATCH_SIZE (queue (st w)))
                  (at_delivery env w)) as (w' & -> & Hq & _).
      cbn. rewrite Hq. apply (firstn_skipn MAX_BATCH_SIZE).
Qed.

Lemma flush_queue_le useBeacon w :
  (List.length (queue (st (world_of (flush env useBeacon w))))
   <= List.length (queue (st w)))%nat.
Proof.
  destruct (flush_queue_cases useBeacon w) as [-> | ->];
    [rewrite length_skipn; lia | lia].
Qed.


(** A flush over sendBeacon, once the call has returned. *)
Lemma flush_beacons w send body queued :
  navigator_sendBeacon env = Some send ->
  queue (st w) <> [] ->
  JSON_stringify env
    (payload_for env (firstn MAX_BATCH_SIZE (queue (st w)))) = Some body ->
  send body = Some queued ->
  flush env true w
  = Ok tt (on_br (fun b => set_beacons (beacons b ++ [body]) b)
                 (at_delivery env w)).
Proof.
  intros Hsend Hne Hbody Hqueued.
  unfold flush, async, try_catch at 1.
  rewrite (flush_body_eq env true w Hne).
  unfold try_catch, deliver, bind, stringify. rewrite Hsend, Hbody.
  unfold ret. rewrite Hqueued. reflexivity.
Qed.

(** X8.  The beacon path has no failure feedback.  When sendBeacon returns,
    whether it reports the body as queued or as refused, the batch is gone
    from the queue, no request is awaited for it and no retry is scheduled:
    a batch sendBeacon refuses is not put back. *)
Theorem beacon_flush_never_requeues w send body queued :
  navigator_sendBeacon env = Some send ->
  queue (st w) <> [] ->
  JSON_stringify env
    (payload_for env (firstn MAX_BATCH_SIZE (queue (st w)))) = Some body ->
  send body = Some queued ->
  exists w',
    flush env true w = Ok tt w'
    /\ queue (st w') = skipn MAX_BATCH_SIZE (queue (st w))
    /\ inflight (br w') = inflight (br w)
    /\ beacons (br w') = beacons (br w) ++ [body]
    /\ timer_view w' = timer_view w.
Proof.
  intros Hsend Hne Hbody Hqueued.
  rewrite (flush_beacons w send body queued Hsend Hne Hbody Hqueued).
  eexists. split; [reflexivity | repeat split].
Qed.

(** Lines 76-81 on a queue below the batch size: nothing is sent. *)
Lemma after_push_short w :
  (List.length (queue (st w)) < MAX_BATCH_SIZE)%nat ->
  exists w',
    after_push env w = Ok tt w' /\ traffic_view w' = traffic_view w.
Proof.
  intro Hlt. unfold after_push, bind. rewrite schedule_flush_eq.
  destruct (flushTimer (st w)); rewrite flush_if_full_eq;
    cbn [st br on_st on_br queue set_flushTimer];
    (destruct (Nat.leb_spec MAX_BATCH_SIZE (List.length (queue (st w))));
     [lia | eexists; split; reflexivity]).
Qed.

(** Lines 76-81 on a queue of exactly the batch size, on a platform that
    takes the request: all of it is sent. *)
Lemma after_push_full w body :
  List.length (queue (st w)) = MAX_BATCH_SIZE ->
  JSON_stringify env (payload_for env (queue (st w))) = Some body ->
  fetch_throws env body = false ->
  exists w',
    after_push env w = Ok tt w'
    /\ traffic_view w'
       = ([], inflight (br w) ++ [mkRequest body (queue (st w))],
          beacons (br w)).
Proof.
  intros Hlen Hbody Hfetch. unfold after_push, bind.
  rewrite schedule_flush_eq.
  assert (Hall : firstn MAX_BATCH_SIZE (queue (st w)) = queue (st w)).
  { rewrite <- Hlen. apply firstn_all. }
  destruct (flushTimer (st w));
    [ destruct (thirtieth_push_empties_queue env w body Hlen)
        as (w' & Hrun & Hq & Hin)
    | destruct (thirtieth_push_empties_queue env
                  (on_st (set_flushTimer (Some (next_timer (br w))))
                     (on_br (fun b =>
                        set_next_timer (Pos.succ (next_timer (br w)))
                          (set_timeouts
                             (timeouts b
                              ++ [(next_timer (br w), FLUSH_INTERVAL_MS)]) b))
                        w)) body Hlen)
        as (w' & Hrun & Hq & Hin) ];
    try (cbn [st on_st on_br queue set_flushTimer]; rewrite Hall);
    try assumption;
    (exists w'; split; [exact Hrun|]).
  - unfold traffic_view. rewrite Hq, Hin.
    pose proof (frames_eq (fun w => beacons (br w)) (flush_if_full env) w)
      as Hb.
    rewrite Hrun in Hb. cbn in Hb. rewrite Hb; [reflexivity|].
    intro v. unfold flush_if_full. maintains_walk frame_leaf.
  - unfold traffic_view. rewrite Hq, Hin. cbn.
    set (w0 := on_st _ _) in Hrun.
    pose proof (frames_eq (fun w => beacons (br w)) (flush_if_full env) w0)
      as Hb.
    rewrite Hrun in Hb. cbn in Hb. rewrite Hb; [reflexivity|].
    intro v. unfold flush_if_full. maintains_walk frame_leaf.
Qed.

End QueueOutcomes.

Section QueueBound.

Variable env : Env.

Lemma with_event_traffic type payload w :
  traffic_view (with_event env type payload w)
  = (queue (st w) ++ [event_in env type payload w],
     inflight (br w), beacons (br w)).
Proof. reflexivity. Qed.

Lemma accepted_push_short type payload w :
  accepted env type payload w ->
  (S (List.length (queue (st w))) < MAX_BATCH_SIZE)%nat ->
  exists w',
    pushEvent env type payload w = Ok tt w'
    /\ traffic_view w'
       = (queue (st w)
          ++ [event_in env type payload (limiter_pass env type w)],
          inflight (br w), beacons (br w)).
Proof.
  intros Hacc Hlt. unfold accepted in Hacc.
  set (ev := event_in env type payload (limiter_pass env type w)).
  set (w1 := with_event env type payload (limiter_pass env type w)) in Hacc.
  pose proof (limiter_pass_traffic env type w) as Ht.
  unfold traffic_view in Ht. injection Ht as Hq Hin Hb.
  assert (Hq1 : queue (st w1) = queue (st w) ++ [ev]).
  { change (queue (st w1))
      with (queue (st (limiter_pass env type w)) ++ [ev]).
    rewrite Hq. reflexivity. }
  assert (Hin1 : inflight (br w1) = inflight (br w)) by exact Hin.
  assert (Hb1 : beacons (br w1) = beacons (br w)) by exact Hb.
  clearbody w1.
  destruct (after_push_short env w1) as (w2 & Hrun & Ht2).
  { rewrite Hq1, last_length. exact Hlt. }
  exists w2. split; [rewrite Hacc; exact Hrun|].
  rewrite Ht2. unfold traffic_view. rewrite Hq1, Hin1, Hb1. reflexivity.
Qed.

Lemma accepted_push_full type payload w body :
  accepted env type payload w ->
  S (List.length (queue (st w))) = MAX_BATCH_SIZE ->
  JSON_stringify env
    (payload_for env
       (queue (st w)
        ++ [event_in env type payload (limiter_pass env type w)]))
  = Some body ->
  fetch_throws env body = false ->
  exists w',
    pushEvent env type payload w = Ok tt w'
    /\ traffic_view w'
       = ([],
          inflight (br w)
          ++ [mkRequest body
                (queue (st w)
                 ++ [event_in env type payload (limiter_pass env type w)])],
          beacons (br w)).
Proof.
  intros Hacc Hlen Hbody Hfetch. unfold accepted in Hacc.
  set (ev := event_in env type payload (limiter_pass env type w)) in *.
  set (w1 := with_event env type payload (limiter_pass env type w)) in Hacc.
  pose proof (limiter_pass_traffic env type w) as Ht.
  unfold traffic_view in Ht. injection Ht as Hq Hin Hb.
  assert (Hq1 : queue (st w1) = queue (st w) ++ [ev]).
  { change (queue (st w1))
      with (queue (st (limiter_pass env type w)) ++ [ev]).
    rewrite Hq. reflexivity. }
  assert (Hin1 : inflight (br w1) = inflight (br w)) by exact Hin.
  assert (Hb1 : beacons (br w1) = beacons (br w)) by exact Hb.
  clearbody w1.
  assert (Hlen1 : List.length (queue (st w1)) = MAX_BATCH_SIZE).
  { rewrite Hq1, last_length. exact Hlen. }
  rewrite <- Hq1 in Hbody.
  destruct (after_push_full env w1 body Hlen1 Hbody Hfetch)
    as (w2 & Hrun & Ht2).
  exists w2. split; [rewrite Hacc; exact Hrun|].
  rewrite Ht2, Hq1, Hin1, Hb1. reflexivity.
Qed.

(** X9.  An accepted push appends its event at the tail and sends nothing while
    the queue stays under 30; the push that makes the queue 30 long hands
    the whole queue, the new event last, to [fetch] at once and leaves the
    queue empty. *)
Theorem push_queue_outcome type payload w :
  accepted env type payload w ->
  let ev := event_in env type payload (limiter_pass env type w) in
  let w' := world_of (pushEvent env type payload w) in
  ((S (List.length (queue (st w))) < MAX_BATCH_SIZE)%nat ->
     traffic_view w'
     = (queue (st w) ++ [ev], inflight (br w), beacons (br w)))
  /\ (S (List.length (queue (st w))) = MAX_BATCH_SIZE ->
      forall body,
        JSON_stringify env (payload_for env (queue (st w) ++ [ev]))
        = Some body ->
        fetch_throws env body = false ->
        traffic_view w'
        = ([], inflight (br w) ++ [mkRequest body (queue (st w) ++ [ev])],
           beacons (br w))).
Proof.
  intros Hacc ev w'. split.
  - intro Hlt.
    destruct (accepted_push_short type payload w Hacc Hlt) as (w1 & Hrun & Ht).
    unfold w'. rewrite Hrun. exact Ht.
  - intros Hlen body Hbody Hfetch.
    destruct (accepted_push_full type payload w body Hacc Hlen Hbody Hfetch)
      as (w1 & Hrun & Ht).
    unfold w'. rewrite Hrun. exact Ht.
Qed.

Lemma flush_below_batch useBeacon :
  maintains below_batch (flush env useBeacon).
Proof.
  intros w H. unfold below_batch in *.
  pose proof (flush_queue_le env useBeacon w). lia.
Qed.

Lemma pushEvent_below_batch type payload :
  accepting env -> maintains below_batch (pushEvent env type payload).
Proof.
  intros [Hjson Hfetch] w H. unfold below_batch in *.
  rewrite pushEvent_eq.
  pose proof (limiter_pass_traffic env type w) as Ht.
  unfold traffic_view in Ht. injection Ht as Hq _ _.
  destruct (match capped_of type with Some _ => _ | None => _ end).
  { cbn. rewrite Hq. exact H. }
  set (w1 := with_event env type payload (limiter_pass env type w)).
  assert (Hq1 : List.length (queue (st w1))
                = S (List.length (queue (st w)))).
  { change (queue (st w1))
      with (queue (st (limiter_pass env type w))
            ++ [event_in env type payload (limiter_pass env type w)]).
    rewrite last_length, Hq. reflexivity. }
  clearbody w1.
  destruct (Nat.eq_dec (List.length (queue (st w1))) MAX_BATCH_SIZE)
    as [Hfull|Hshort].
  - destruct (JSON_stringify env (payload_for env (queue (st w1))))
      as [body|] eqn:Hbody; [|exfalso; apply (Hjson _ Hbody)].
    destruct (after_push_full env w1 body Hfull Hbody (Hfetch body))
      as (w2 & -> & Ht2).
    cbn. unfold traffic_view in Ht2. injection Ht2 as -> _ _. cbn.
    unfold MAX_BATCH_SIZE. lia.
  - destruct (after_push_short env w1) as (w2 & -> & Ht2); [lia|].
    cbn. unfold traffic_view in Ht2. injection Ht2 as -> _ _. lia.
Qed.

Lemma perform_below_batch a :
  accepting env -> is_reject a = false ->
  maintains below_batch (perform env a).
Proof.
  intros Hacc Hrej. destruct a; try discriminate Hrej; clear Hrej;
    maintains_walk_with
      ltac:(idtac; lazymatch goal with
            | |- maintains _ (pushEvent _ _ _) =>
                apply (pushEvent_below_batch _ _ Hacc)
            | |- maintains _ (flush _ _) => apply flush_below_batch
            end)
      ltac:(unfold below_batch in *; cbn in *; assumption).
Qed.

(** X10.  On a platform where no delivery fails inside the call, and as long as
    no request is rejected, the queue never holds 30 events between steps:
    every state a run reaches has fewer than 30 events queued. *)
Theorem queue_stays_below_batch acts :
  accepting env ->
  forallb (fun a => negb (is_reject a)) acts = true ->
  below_batch (run env acts (init env)).
Proof.
  intros Hacc.
  assert (Hgen : forall w,
            below_batch w ->
            forallb (fun a => negb (is_reject a)) acts = true ->
            below_batch (run env acts w)).
  { induction acts as [|a rest IH]; intros w Hw Hall; [exact Hw|].
    cbn in Hall. apply andb_true_iff in Hall. destruct Hall as [Ha Hrest].
    cbn. apply IH; [|exact Hrest].
    apply perform_below_batch; [exact Hacc | | exact Hw].
    apply negb_true_iff, Ha. }
  apply Hgen. unfold below_batch. cbn. unfold MAX_BATCH_SIZE. lia.
Qed.

(** X11.  Two flushes in a row, the first still awaiting its request, take
    consecutive batches: nothing is sent twice and nothing is skipped. *)
Theorem consecutive_flushes_take_consecutive_batches w body1 body2 :
  let q := queue (st w) in
  let batch1 := firstn MAX_BATCH_SIZE q in
  let batch2 := firstn MAX_BATCH_SIZE (skipn MAX_BATCH_SIZE q) in
  q <> [] ->
  skipn MAX_BATCH_SIZE q <> [] ->
  JSON_stringify env (payload_for env batch1) = Some body1 ->
  fetch_throws env body1 = false ->
  JSON_stringify env (payload_for env batch2) = Some body2 ->
  fetch_throws env body2 = false ->
  let w' := run env [CallFlush; CallFlush] w in
  inflight (br w')
  = inflight (br w) ++ [mkRequest body1 batch1; mkRequest body2 batch2]
  /\ queue (st w') = skipn MAX_BATCH_SIZE (skipn MAX_BATCH_SIZE q)
  /\ batch1 ++ batch2 ++ queue (st w') = q.
Proof.
  intros q batch1 batch2 Hne1 Hne2 Hb1 Hf1 Hb2 Hf2 w'.
  unfold w'. cbn [run perform]. unfold public_flush.
  rewrite (flush_awaits env w body1 Hne1 Hb1 Hf1).
  cbn [world_of].
  set (w1 := on_br _ (at_delivery env w)).
  assert (Hq1 : queue (st w1) = skipn MAX_BATCH_SIZE q) by reflexivity.
  rewrite (flush_awaits env w1 body2).
  - cbn [world_of]. rewrite Hq1. fold batch2.
    split; [|split].
    + cbn. rewrite <- app_assoc. reflexivity.
    + reflexivity.
    + cbn [queue st on_br at_delivery on_st set_queue set_lastFlushAt].
      rewrite Hq1. unfold batch1, batch2.
      rewrite (firstn_skipn MAX_BATCH_SIZE (skipn MAX_BATCH_SIZE q)).
      apply (firstn_skipn MAX_BATCH_SIZE).
  - rewrite Hq1. exact Hne2.
  - rewrite Hq1. exact Hb2.
  - exact Hf2.
Qed.

End QueueBound.

(* ================================================================== *)
(** ** Sequencing: what a computation ensures *)
(* ================================================================== *)

Section Ensures.

Context {A B : Type}.

Lemma ensures_bind (P Q R : World -> Prop) (m : M A) (k : A -> M B) :
  safe m -> ensures P Q m -> (forall a, ensures Q R (k a)) ->
  ensures P R (bind m k).
Proof.
  intros Hsafe Hm Hk w Hw. unfold bind.
  specialize (Hm w Hw). specialize (Hsafe w).
  destruct (m w) as [a w1|e w1]; [|contradiction].
  apply (Hk a w1 Hm).
Qed.

Lemma ensures_weaken (P P' Q Q' : World -> Prop) (m : M A) :
  (forall w, P' w -> P w) -> (forall w, Q w -> Q' w) ->
  ensures P Q m -> ensures P' Q' m.
Proof. intros HP HQ H w Hw. apply HQ, H, HP, Hw. Qed.

End Ensures.

Lemma maintains_ensures {A} (P : World -> Prop) (m : M A) :
  maintains P m -> ensures P P m.
Proof. intros H w Hw. apply H, Hw. Qed.

(* ================================================================== *)
(** ** Page unload *)
(* ================================================================== *)

Section Unload.

Variable env : Env.

Ltac beat_leaf := unfold heartbeat_timer_shape in *; cbn in *; assumption.

Lemma pushEvent_heartbeat_shape type payload :
  maintains heartbeat_timer_shape (pushEvent env type payload).
Proof. maintains_walk beat_leaf. Qed.

Lemma flush_heartbeat_shape useBeacon :
  maintains heartbeat_timer_shape (flush env useBeacon).
Proof. maintains_walk beat_leaf. Qed.

Lemma stopHeartbeat_frames_traffic : frames traffic_view stopHeartbeat.
Proof. frames_walk. Qed.

(** X13.  After the beforeunload listener has run, no heartbeat interval is
    active and [heartbeatTimer] is null: an interval callback that still
    arrives finds nothing registered, and pushes nothing. *)
Theorem unload_stops_heartbeat w :
  heartbeat_timer_shape w ->
  let w' := world_of (on_beforeunload env w) in
  heartbeatTimer (st w') = None
  /\ intervals (br w') = []
  /\ forall id, interval_fires env id w' = Ok tt w'.
Proof.
  intros Hshape w'.
  assert (Hends : ensures heartbeat_timer_shape
            (fun w => heartbeatTimer (st w) = None /\ intervals (br w) = [])
            (on_beforeunload env)).
  { unfold on_beforeunload.
    apply (ensures_bind _ heartbeat_timer_shape);
      [apply safe_pushEvent
      | apply maintains_ensures, pushEvent_heartbeat_shape | intros _].
    apply (ensures_bind _ heartbeat_timer_shape);
      [apply safe_flush
      | apply maintains_ensures, flush_heartbeat_shape | intros _].
    intros w0 H0.
    destruct (stopHeartbeat_shape w0 H0) as (w1 & -> & Hhb & Hiv & _).
    split; assumption. }
  destruct (Hends w Hshape) as [Hhb Hiv]. fold w' in Hhb, Hiv.
  split; [exact Hhb | split; [exact Hiv|]].
  intro id. unfold interval_fires, bind, get. cbv beta iota.
  rewrite Hiv. reflexivity.
Qed.

(** X14.  The beforeunload listener, on a platform with a working sendBeacon and
    no failing delivery.  With fewer than 29 events queued, the queue and
    the exit event, which comes last, go out in one beacon and nothing is
    awaited.  With exactly 29 queued, the exit event fills the batch: the
    30 events go out through [fetch] from inside the push, and the flush
    over sendBeacon that follows finds the queue empty and sends
    nothing. *)
Theorem unload_delivery w send :
  navigator_sendBeacon env = Some send ->
  (forall body, send body <> None) ->
  accepting env ->
  let ev := event_in env (VStr "exit") (VObj [])
                     (limiter_pass env (VStr "exit") w) in
  let w' := world_of (on_beforeunload env w) in
  ((S (List.length (queue (st w))) < MAX_BATCH_SIZE)%nat ->
     exists body,
       JSON_stringify env (payload_for env (queue (st w) ++ [ev]))
       = Some body
       /\ traffic_view w' = ([], inflight (br w), beacons (br w) ++ [body]))
  /\ (S (List.length (queue (st w))) = MAX_BATCH_SIZE ->
      exists body,
        JSON_stringify env (payload_for env (queue (st w) ++ [ev]))
        = Some body
        /\ traffic_view w'
           = ([], inflight (br w) ++ [mkRequest body (queue (st w) ++ [ev])],
              beacons (br w))).
Proof.
  intros Hsend Hreturns [Hjson Hfetch] ev w'.
  assert (Hacc : accepted env (VStr "exit") (VObj []) w)
    by (apply pushEvent_uncapped; reflexivity).
  destruct (JSON_stringify env (payload_for env (queue (st w) ++ [ev])))
    as [body|] eqn:Hbody; [|exfalso; apply (Hjson _ Hbody)].
  assert (Hstop : forall w2,
            traffic_view (world_of (stopHeartbeat w2)) = traffic_view w2).
  { intro w2. apply (frames_eq traffic_view), stopHeartbeat_frames_traffic. }
  split; intro Hlen; exists body; (split; [reflexivity|]).
  - destruct (accepted_push_short env _ _ w Hacc Hlen) as (w1 & Hpush & Ht1).
    fold ev in Ht1. unfold traffic_view in Ht1. injection Ht1 as Hq1 Hin1 Hb1.
    assert (Hne : queue (st w1) <> []).
    { rewrite Hq1. intro E. apply app_eq_nil in E. destruct E as [_ E].
      discriminate E. }
    assert (Hall : firstn MAX_BATCH_SIZE (queue (st w1)) = queue (st w1)).
    { apply firstn_all2. rewrite Hq1, last_length. lia. }
    assert (Hnone : skipn MAX_BATCH_SIZE (queue (st w1)) = []).
    { apply skipn_all2. rewrite Hq1, last_length. lia. }
    destruct (send body) as [queued|] eqn:Hq; [|exfalso; apply (Hreturns _ Hq)].
    assert (Hflush : flush env true w1
              = Ok tt (on_br (fun b => set_beacons (beacons b ++ [body]) b)
                             (at_delivery env w1))).
    { apply (flush_beacons env w1 send body queued Hsend Hne);
        [rewrite Hall, Hq1; exact Hbody | exact Hq]. }
    unfold w', on_beforeunload, bind. rewrite Hpush, Hflush, Hstop.
    unfold traffic_view, at_delivery, on_br, on_st.
    cbn [st br queue inflight beacons set_queue set_lastFlushAt set_beacons
         set_reads world_of].
    rewrite Hnone, Hin1, Hb1. reflexivity.
  - destruct (accepted_push_full env _ _ w body Hacc Hlen Hbody (Hfetch body))
      as (w1 & Hpush & Ht1).
    fold ev in Ht1.
    assert (Hempty : queue (st w1) = []).
    { unfold traffic_view in Ht1. injection Ht1 as Hq1 _ _. exact Hq1. }
    unfold w', on_beforeunload, bind.
    rewrite Hpush, (flush_empty env true w1 Hempty), Hstop. exact Ht1.
Qed.

End Unload.

(* ================================================================== *)
(** ** The counters, type by type *)
(* ================================================================== *)

Section Counters.

Variable env : Env.

(** X15.  Through any run whose clock reads fall inside the window it
    starts in, every submission of a capped type is counted, accepted or
    dropped: after k of them the type's counter is up by k, also far past
    its threshold, and the window stays where it was.  Each of the five
    counters counts the submissions of its own type and nothing else:
    submissions of another type, capped or not, and every other step
    (context changes, heartbeats, flushes, timers, responses) leave it
    alone, so one kind of event cannot use up the allowance of another. *)
Theorem limiter_counts_per_type acts w :
  let w' := run env acts w in
  reads_within env (minuteWindowStart (st w)) (reads (br w)) (reads (br w')) ->
  minuteWindowStart (st w') = minuteWindowStart (st w)
  /\ forall c,
       count_of c (counters (st w'))
       = count_of c (counters (st w)) + Z.of_nat (submissions c acts).
Proof.
  intros w' Hin.
  split.
  - destruct (run_counted env Copy _ _ acts _ w (counted_here env Copy w))
      as [_ H].
    apply H, Hin.
  - intro c.
    destruct (run_counted env c _ _ acts _ w (counted_here env c w))
      as [_ H].
    apply H, Hin.
Qed.

End Counters.

(* ================================================================== *)
(** ** [setContext] and the heartbeat *)
(* ================================================================== *)

Section ContextHeartbeat.

Variable env : Env.

Lemma bind_assoc {A B C} (m : M A) (k : A -> M B) (h : B -> M C) w :
  bind (bind m k) h w = bind m (fun a => bind (k a) h) w.
Proof. unfold bind. destruct (m w); reflexivity. Qed.

Lemma setContext_split sessionId taskId w :
  setContext env (ArgObject sessionId taskId) w
  = (context_update env sessionId taskId ;; startHeartbeat) w.
Proof.
  unfold context_update. rewrite bind_assoc. reflexivity.
Qed.

Lemma safe_context_update sessionId taskId :
  safe (context_update env sessionId taskId).
Proof.
  unfold context_update.
  apply safe_bind; [safe_walk|]. intros _.
  destruct (defined taskId); [|apply safe_ret].
  apply safe_bind; [apply safe_get|]. intro w.
  apply safe_bind; [|intros _; safe_walk].
  destruct (_ && _); [|apply safe_ret].
  apply safe_bind; [intro; exact I|]. intro. apply safe_pushEvent.
Qed.

Lemma context_update_heartbeat_shape sessionId taskId :
  maintains heartbeat_timer_shape (context_update env sessionId taskId).
Proof.
  maintains_walk_with
    ltac:(idtac; lazymatch goal with
          | |- maintains _ (pushEvent _ _ _) =>
              apply pushEvent_heartbeat_shape
          end)
    ltac:(unfold heartbeat_timer_shape in *; cbn in *; assumption).
Qed.

(** X16.  Every [setContext] call with an object, also [{}], restarts the
    heartbeat: afterwards exactly one interval is active, every 10000 ms,
    and [heartbeatTimer] names it.  A call that gives neither a session id
    nor a task id does nothing else: no clock read, no event, and context,
    limiter and flush timer as before. *)
Theorem setContext_restarts_heartbeat sessionId taskId w :
  heartbeat_timer_shape w ->
  let w' := world_of (setContext env (ArgObject sessionId taskId) w) in
  (exists id,
     heartbeatTimer (st w') = Some id
     /\ intervals (br w') = [(id, HEARTBEAT_SEC * 1000)])
  /\ (sessionId = PUndefined -> taskId = PUndefined ->
      heartbeatTimer (st w') = Some (next_timer (br w))
      /\ traffic_view w' = traffic_view w
      /\ timer_view w' = timer_view w
      /\ context_view w' = context_view w
      /\ limiter_view w' = limiter_view w
      /\ reads (br w') = reads (br w)).
Proof.
  intros Hshape w'. split.
  - assert (Hends : ensures heartbeat_timer_shape
              (fun w => exists id,
                   heartbeatTimer (st w) = Some id
                   /\ intervals (br w) = [(id, HEARTBEAT_SEC * 1000)])
              (context_update env sessionId taskId ;; startHeartbeat)).
    { apply (ensures_bind _ heartbeat_timer_shape);
        [apply safe_context_update
        | apply maintains_ensures, context_update_heartbeat_shape
        | intros _].
      intros w0 H0.
      destruct (startHeartbeat_shape w0 H0) as (w1 & -> & Hhb & Hiv & _).
      exists (next_timer (br w0)). split; assumption. }
    unfold w'. rewrite setContext_split. apply Hends, Hshape.
  - intros -> ->.
    assert (E : setContext env (ArgObject PUndefined PUndefined) w
                = startHeartbeat w) by reflexivity.
    unfold w'. rewrite E.
    assert (Hr : reads (br (world_of (startHeartbeat w))) = reads (br w)).
    { apply (frames_eq (fun w => reads (br w))). frames_walk. }
    destruct (startHeartbeat_shape w Hshape)
      as (w1 & Hrun & Hhb & _ & Ht & Htm & Hc & Hl).
    rewrite Hrun in *. cbn [world_of] in *. repeat split; assumption.
Qed.

Lemma startHeartbeat_sets_timer w :
  heartbeatTimer (st (world_of (startHeartbeat w))) <> None.
Proof.
  unfold startHeartbeat, stopHeartbeat, bind, get, clearInterval, modify,
    setInterval.
  cbv beta iota. destruct (heartbeatTimer (st w)); cbn; discriminate.
Qed.

Lemma context_update_stores_task sessionId taskId :
  defined taskId = true ->
  ensures (fun _ => True) (fun w => currentTaskId (st w) = taskId)
          (context_update env sessionId taskId).
Proof.
  intro Hdef. unfold context_update. rewrite Hdef.
  apply (ensures_bind _ (fun _ => True)); [safe_walk | intros ? ? ; exact I|].
  intros _.
  apply (ensures_bind _ (fun _ => True));
    [apply safe_get | intros ? ?; exact I|].
  intro w0.
  apply (ensures_bind _ (fun _ => True)); [| intros ? ?; exact I|].
  { destruct (_ && _); [|apply safe_ret].
    apply safe_bind; [intro; exact I|]. intro. apply safe_pushEvent. }
  intros _.
  apply (ensures_bind _ (fun w => currentTaskId (st w) = taskId));
    [apply safe_modify | intros ? ?; reflexivity|].
  intros _.
  apply maintains_ensures.
  maintains_walk ltac:(cbn in *; assumption).
Qed.

(** X17.  A task id that is given but falsy (null, 0, the empty string, false)
    closes the task: it becomes the current task id, every heartbeat tick
    that follows pushes nothing, and yet the heartbeat interval is left
    running. *)
Theorem setContext_closes_task sessionId taskId w :
  defined taskId = true ->
  truthy_prim taskId = false ->
  let w' := world_of (setContext env (ArgObject sessionId taskId) w) in
  currentTaskId (st w') = taskId
  /\ heartbeat env w' = Ok tt w'
  /\ heartbeatTimer (st w') <> None.
Proof.
  intros Hdef Hfalsy w'.
  assert (Htask : currentTaskId (st w') = taskId).
  { unfold w'. rewrite setContext_split.
    assert (Hends : ensures (fun _ => True)
                      (fun w => currentTaskId (st w) = taskId)
                      (context_update env sessionId taskId ;; startHeartbeat)).
    { apply (ensures_bind _ (fun w => currentTaskId (st w) = taskId));
        [apply safe_context_update
        | apply context_update_stores_task, Hdef | intros _].
      apply maintains_ensures.
      maintains_walk ltac:(cbn in *; assumption). }
    apply Hends. exact I. }
  split; [exact Htask | split].
  - unfold heartbeat, bind, get. rewrite Htask, Hfalsy. reflexivity.
  - unfold w'. rewrite setContext_split. unfold bind.
    rewrite (safe_unit _ w (safe_context_update sessionId taskId)).
    apply startHeartbeat_sets_timer.
Qed.

End ContextHeartbeat.

(* ================================================================== *)
(** ** Further properties at concrete runs *)
(* ================================================================== *)


(** A body that sendBeacon refuses is gone all the same. *)
Lemma beacon_flush_never_requeues_witness :
  let w := run refusing_beacon_env [focus] (init refusing_beacon_env) in
  navigator_sendBeacon refusing_beacon_env = Some (fun _ => Some false)
  /\ queue (st w) <> []
  /\ exists w',
       flush refusing_beacon_env true w = Ok tt w'
       /\ queue (st w') = skipn MAX_BATCH_SIZE (queue (st w))
       /\ inflight (br w') = inflight (br w).
Proof.
  intro w.
  assert (Hne : queue (st w) <> []) by (vm_compute; discriminate).
  split; [reflexivity | split; [exact Hne|]].
  destruct (beacon_flush_never_requeues refusing_beacon_env w
              (fun _ => Some false) "{}" false eq_refl Hne eq_refl eq_refl)
    as (w' & Hrun & Hq & Hin & _).
  exists w'. split; [exact Hrun | split; [exact Hq | exact Hin]].
Defined.

(** The first push is appended; the thirtieth empties the queue. *)
Lemma push_queue_outcome_witness :
  let w0 := init quiet_env in
  let w29 := run quiet_env (repeat focus 29) (init quiet_env) in
  accepted quiet_env (VStr "focus") (VObj []) w0
  /\ (S (List.length (queue (st w0))) < MAX_BATCH_SIZE)%nat
  /\ traffic_view (world_of (pushEvent quiet_env (VStr "focus") (VObj []) w0))
     = (queue (st w0)
        ++ [event_in quiet_env (VStr "focus") (VObj [])
              (limiter_pass quiet_env (VStr "focus") w0)],
        inflight (br w0), beacons (br w0))
  /\ accepted quiet_env (VStr "focus") (VObj []) w29
  /\ S (List.length (queue (st w29))) = MAX_BATCH_SIZE
  /\ queue (st (world_of
                  (pushEvent quiet_env (VStr "focus") (VObj []) w29))) = [].
Proof.
  intros w0 w29.
  assert (H0 : accepted quiet_env (VStr "focus") (VObj []) w0)
    by (apply pushEvent_uncapped; reflexivity).
  assert (H29 : accepted quiet_env (VStr "focus") (VObj []) w29)
    by (apply pushEvent_uncapped; reflexivity).
  assert (Hlt : (S (List.length (queue (st w0))) < MAX_BATCH_SIZE)%nat)
    by (vm_compute; repeat constructor).
  assert (Hlen : S (List.length (queue (st w29))) = MAX_BATCH_SIZE)
    by (vm_compute; reflexivity).
  destruct (push_queue_outcome quiet_env (VStr "focus") (VObj []) w0 H0)
    as [Hshort _].
  destruct (push_queue_outcome quiet_env (VStr "focus") (VObj []) w29 H29)
    as [_ Hfull].
  split; [exact H0 | split; [exact Hlt | split; [exact (Hshort Hlt)|]]].
  split; [exact H29 | split; [exact Hlen|]].
  exact (f_equal (fun t => fst (fst t)) (Hfull Hlen "{}" eq_refl eq_refl)).
Defined.

(** Forty-five pushes on a quiet platform: under 30 queued at the end. *)
Lemma queue_stays_below_batch_witness :
  accepting quiet_env
  /\ forallb (fun a => negb (is_reject a)) (repeat focus 45) = true
  /\ below_batch (run quiet_env (repeat focus 45) (init quiet_env)).
Proof.
  assert (Hacc : accepting quiet_env).
  { split; [intros v; discriminate | intros body; reflexivity]. }
  assert (Hall : forallb (fun a => negb (is_reject a)) (repeat focus 45)
                 = true) by reflexivity.
  split; [exact Hacc | split; [exact Hall|]].
  exact (queue_stays_below_batch quiet_env (repeat focus 45) Hacc Hall).
Defined.

(** Thirty-five events queued after a failure go out as 30 and 5. *)
Lemma consecutive_flushes_witness :
  let w := run quiet_env (repeat focus 35 ++ [FetchRejects 0])
               (init quiet_env) in
  queue (st w) <> []
  /\ skipn MAX_BATCH_SIZE (queue (st w)) <> []
  /\ map (fun r => List.length (req_batch r))
         (inflight (br (run quiet_env [CallFlush; CallFlush] w)))
     = [30%nat; 5%nat]
  /\ queue (st (run quiet_env [CallFlush; CallFlush] w)) = [].
Proof.
  intro w.
  assert (H1 : queue (st w) <> []) by (vm_compute; discriminate).
  assert (H2 : skipn MAX_BATCH_SIZE (queue (st w)) <> [])
    by (vm_compute; discriminate).
  split; [exact H1 | split; [exact H2|]].
  destruct (consecutive_flushes_take_consecutive_batches quiet_env w
              "{}" "{}" H1 H2 eq_refl eq_refl eq_refl eq_refl)
    as (Hin & Hq & _).
  split.
  - rewrite Hin. vm_compute. reflexivity.
  - rewrite Hq. vm_compute. reflexivity.
Defined.

(** Unloading the page on task 7 leaves no heartbeat interval. *)
Lemma unload_stops_heartbeat_witness :
  heartbeat_timer_shape on_task_7
  /\ heartbeatTimer (st on_task_7) <> None
  /\ intervals (br (world_of (on_beforeunload ticking_env on_task_7))) = [].
Proof.
  assert (H : heartbeat_timer_shape on_task_7) by reflexivity.
  split; [exact H | split; [vm_compute; discriminate|]].
  exact (proj1 (proj2 (unload_stops_heartbeat ticking_env on_task_7 H))).
Defined.

(** One event queued at unload: it and the exit event go out in one
    beacon. *)
Lemma unload_delivery_witness :
  let w := run beacon_env [focus] (init beacon_env) in
  navigator_sendBeacon beacon_env = Some (fun _ => Some true)
  /\ accepting beacon_env
  /\ (S (List.length (queue (st w))) < MAX_BATCH_SIZE)%nat
  /\ traffic_view (world_of (on_beforeunload beacon_env w))
     = ([], [], ["{}"]).
Proof.
  intro w.
  assert (Hacc : accepting beacon_env).
  { split; [intros v; discriminate | intros body; reflexivity]. }
  assert (Hlt : (S (List.length (queue (st w))) < MAX_BATCH_SIZE)%nat)
    by (vm_compute; repeat constructor).
  split; [reflexivity | split; [exact Hacc | split; [exact Hlt|]]].
  destruct (unload_delivery beacon_env w (fun _ => Some true) eq_refl)
    as [Hshort _]; [intros body; discriminate | exact Hacc|].
  destruct (Hshort Hlt) as (body & Hbody & Ht).
  injection Hbody as <-. exact Ht.
Defined.

(** On a clock that advances with every read, fifty copies with other
    traffic in between: copy counts 50, paste counts the one paste, blur
    counts nothing. *)
Lemma limiter_counts_per_type_witness :
  let env := millisecond_env in
  let w := init env in
  let acts := busy_minute ++ repeat (submit Copy) 10 in
  let w' := run env acts w in
  reads_within env (minuteWindowStart (st w)) (reads (br w)) (reads (br w'))
  /\ count_of Copy (counters (st w')) = 50
  /\ count_of Paste (counters (st w')) = 1
  /\ count_of Blur (counters (st w')) = 0.
Proof.
  intros env w acts w'.
  assert (H : reads_within env (minuteWindowStart (st w)) (reads (br w))
                           (reads (br w'))).
  { assert (Hlast : (reads (br w') < 1000)%nat) by (vm_compute; lia).
    intros n Hn. change (Z.of_nat n - 1 < 60000). lia. }
  split; [exact H|].
  destruct (limiter_counts_per_type env acts w H) as (_ & Hcount).
  exact (conj (Hcount Copy) (conj (Hcount Paste) (Hcount Blur))).
Defined.

(** A batch whose request is rejected is still held. *)
Lemma no_event_lost_witness :
  let w := run quiet_env [focus; CallFlush] (init quiet_env) in
  releases (FetchRejects 0) = false
  /\ held focus_event w
  /\ held focus_event (world_of (perform quiet_env (FetchRejects 0) w)).
Proof.
  intro w.
  assert (H : held focus_event w).
  { right. exists (mkRequest "{}" [focus_event]).
    split; left; reflexivity. }
  split; [reflexivity | split; [exact H|]].
  exact (no_event_lost quiet_env focus_event (FetchRejects 0) eq_refl w H).
Defined.

(** After the first push, the timeout fires; scheduling is over. *)
Lemma no_rescheduling_after_first_witness :
  let w := run quiet_env [focus] (init quiet_env) in
  let w' := run quiet_env [TimeoutFires 1; FetchFulfils 0] w in
  flushTimer (st w) <> None
  /\ timeouts (br w') = []
  /\ schedule_flush w' = Ok tt w'.
Proof.
  intros w w'.
  assert (H : flushTimer (st w) <> None) by (vm_compute; discriminate).
  split; [exact H | split; [reflexivity|]].
  exact (proj2 (no_rescheduling_after_first quiet_env
                  [TimeoutFires 1; FetchFulfils 0] w H)).
Defined.

(** [setContext({})] on task 7: a new interval, nothing else. *)
Lemma setContext_restarts_heartbeat_witness :
  let w' := world_of (setContext ticking_env
                        (ArgObject PUndefined PUndefined) on_task_7) in
  heartbeat_timer_shape on_task_7
  /\ heartbeatTimer (st w') = Some (next_timer (br on_task_7))
  /\ traffic_view w' = traffic_view on_task_7
  /\ context_view w' = context_view on_task_7.
Proof.
  intro w'.
  assert (H : heartbeat_timer_shape on_task_7) by reflexivity.
  split; [exact H|].
  destruct (setContext_restarts_heartbeat ticking_env PUndefined PUndefined
              on_task_7 H) as [_ Hempty].
  destruct (Hempty eq_refl eq_refl) as (Hhb & Ht & _ & Hc & _).
  split; [exact Hhb | split; [exact Ht | exact Hc]].
Defined.

(** [setContext({taskId: null})] on task 7 ends the heartbeats. *)
Lemma setContext_closes_task_witness :
  let w' := world_of (setContext ticking_env
                        (ArgObject PUndefined PNull) on_task_7) in
  defined PNull = true
  /\ truthy_prim PNull = false
  /\ currentTaskId (st w') = PNull
  /\ heartbeat ticking_env w' = Ok tt w'.
Proof.
  intro w'.
  split; [reflexivity | split; [reflexivity|]].
  destruct (setContext_closes_task ticking_env PUndefined PNull on_task_7
              eq_refl eq_refl) as (Htask & Hbeat & _).
  split; [exact Htask | exact Hbeat].
Defined.

(* ================================================================== *)
(** ** A network that is down *)
(* ================================================================== *)

Section Outage.

Variable env : Env.

Hypothesis fetch_down : forall body, fetch_throws env body = true.

Lemma deliver_down payload batch w :
  ~ returns (deliver env false payload batch w).
Proof.
  unfold deliver, bind, stringify, fetch.
  destruct (JSON_stringify env payload) as [body|]; cbn.
  - rewrite fetch_down. intros [].
  - intros [].
Qed.

Lemma flush_down w :
  queue (st (world_of (flush env false w))) = queue (st w).
Proof.
  assert (Hcases : queue (st w) = [] \/ queue (st w) <> []).
  { destruct (queue (st w)); [left; reflexivity | right; discriminate]. }
  destruct Hcases as [Hempty|Hne].
  - rewrite (flush_empty env false w Hempty). reflexivity.
  - rewrite (flush_sync_failure env false w Hne (deliver_down _ _ _)).
    destruct (flush_catch_eq (firstn MAX_BATCH_SIZE (queue (st w)))
                (at_delivery env w)) as (w' & -> & Hq & _).
    cbn [world_of]. rewrite Hq. apply (firstn_skipn MAX_BATCH_SIZE).
Qed.

Lemma after_push_down w :
  queue (st (world_of (after_push env w))) = queue (st w).
Proof.
  unfold after_push, bind. rewrite schedule_flush_eq.
  destruct (flushTimer (st w)); rewrite flush_if_full_eq;
    cbn [st br on_st on_br queue set_flushTimer];
    (destruct (_ <=? _)%nat; [rewrite flush_down|]; reflexivity).
Qed.

Lemma push_down type payload w :
  capped_of type = None ->
  queue (st (world_of (pushEvent env type payload w)))
  = queue (st w) ++ [event_in env type payload (limiter_pass env type w)].
Proof.
  intro Hnone. rewrite (pushEvent_uncapped env type payload w Hnone).
  rewrite after_push_down.
  pose proof (limiter_pass_traffic env type w) as Ht.
  change (queue (st (with_event env type payload (limiter_pass env type w))))
    with (queue (st (limiter_pass env type w))
          ++ [event_in env type payload (limiter_pass env type w)]).
  apply (f_equal (fun t => fst (fst t))) in Ht. cbn [fst traffic_view] in Ht.
  rewrite Ht. reflexivity.
Qed.

(** X12.  The queue has no capacity.  While [fetch] throws at every call, every
    push of a type that is not capped stays in the queue, in order, behind
    what was there: after n such pushes the queue is n events longer,
    however large n is. *)
Theorem outage_keeps_every_event type payloads :
  capped_of type = None ->
  forall w,
  exists evs,
    queue (st (run env (map (CallLog type) payloads) w))
    = queue (st w) ++ evs
    /\ List.length evs = List.length payloads
    /\ Forall (fun e => prop "type" e = type) evs.
Proof.
  intro Hnone. induction payloads as [|p ps IH]; intro w.
  - exists []. cbn. rewrite app_nil_r. repeat split. constructor.
  - cbn [map run perform]. unfold log.
    destruct (IH (world_of (pushEvent env type p w)))
      as (evs & Hq & Hlen & Hall).
    exists (event_in env type p (limiter_pass env type w) :: evs).
    split; [|split].
    + rewrite Hq, (push_down type p w Hnone), <- app_assoc. reflexivity.
    + cbn. rewrite Hlen. reflexivity.
    + constructor; [reflexivity | exact Hall].
Qed.

End Outage.

(** Forty pushes with the network down: forty events queued. *)
Lemma outage_keeps_every_event_witness :
  (forall body, fetch_throws offline_env body = true)
  /\ capped_of (VStr "focus") = None
  /\ List.length
       (queue (st (run offline_env
                       (map (CallLog (VStr "focus")) (repeat (VObj []) 40))
                       (init offline_env)))) = 40%nat.
Proof.
  assert (Hdown : forall body, fetch_throws offline_env body = true)
    by (intro; reflexivity).
  split; [exact Hdown | split; [reflexivity|]].
  destruct (outage_keeps_every_event offline_env Hdown (VStr "focus")
              (repeat (VObj []) 40) eq_refl (init offline_env))
    as (evs & Hq & Hlen & _).
  rewrite Hq. cbn [init st queue app]. exact Hlen.
Defined.
